(** * FM-index query engine of nvbio (nvbio/fmindex/fmindex_inl.h)

    A shallow embedding of the query functions [rank], [rank4], [match],
    [match_reverse], [basic_inv_psi], [inv_psi], [locate],
    [locate_ssa_iterator] and [lookup_ssa_iterator], followed by the
    properties stated about them.

    The functions are templates over a rank dictionary and a sampled suffix
    array: both are interfaces here (type classes), and the FM-index itself
    is a record of the accessors the functions call.

    The second part adds the range overload of [rank4], the reads that are
    handed to [match] as patterns ([ReadStream], [ReverseXform]), the
    protein alphabet and the q-grams of a string. *)

From Stdlib Require Import ZArith List Lia Bool Ascii.
Import ListNotations.

Local Open Scope Z_scope.

Module nvbio.

(** ** Machine integers

    [index_type] is [uint32]: values live in [0, 2^32) and arithmetic wraps. *)

Definition index_type := Z.
Definition uint8 := Z.

Definition u32 (z : Z) : index_type := z mod 2 ^ 32.

(** conversion to [uint8], as in [const uint8 c = pattern[i]] *)
Definition to_uint8 (z : Z) : uint8 := z mod 2 ^ 8.

(** [index_type(-1)] *)
Definition index_none : index_type := 2 ^ 32 - 1.

(** conversion of a [uint32] value to [int32] (two's complement) *)
Definition to_int32 (z : Z) : Z := if z <? 2 ^ 31 then z else z - 2 ^ 32.

(** [uint2] and [uint4], built by [make_vector] *)
Record range_type := make_vector { x : index_type; y : index_type }.

(** the empty match: [x > y] *)
Definition is_empty (range : range_type) : Prop := x range > y range.

Record vec4_type := make_vector4
  { vx : index_type; vy : index_type; vz : index_type; vw : index_type }.

(** ** Interfaces of the template parameters *)

(** [TRankDictionary]: the free functions [rank(dict,k,c)],
    [rank(dict,range,c)] and [rank4(dict,k)]. *)
Class RankDictionary (D : Type) := {
  dict_rank : D -> index_type -> uint8 -> index_type;
  dict_rank_range : D -> range_type -> uint8 -> range_type;
  dict_rank4 : D -> index_type -> vec4_type
}.

(** [TSuffixArray]: [has(i)] and [fetch(i, r)]; [fetch] returns [false]
    ([None]) or writes the coordinate and returns [true] ([Some]). *)
Class SuffixArray (S : Type) := {
  has : S -> index_type -> bool;
  fetch : S -> index_type -> option index_type
}.

(** The accessors of [fm_index<TRankDictionary,TSuffixArray>]. *)
Record fm_index (D S : Type) := {
  length : index_type;
  primary : index_type;
  count : uint8 -> index_type;
  L2 : uint8 -> index_type;
  rank_dict : D;
  sa : S;
  bwt : index_type -> uint8
}.

Arguments length {D S} _.
Arguments primary {D S} _.
Arguments count {D S} _ _.
Arguments L2 {D S} _ _.
Arguments rank_dict {D S} _.
Arguments sa {D S} _.
Arguments bwt {D S} _ _.

(** A pattern iterator: [pattern[i]] yields a value that the search loops
    store in a [uint8]. *)
Definition Iterator := nat -> uint8.

Section Queries.

Context {TRankDictionary TSuffixArray : Type}
  `{RankDictionary TRankDictionary} `{SuffixArray TSuffixArray}.

#[local] Abbreviation fmindex := (fm_index TRankDictionary TSuffixArray).

(** "because $ is not in bwt": [if (k >= fmi.primary()) --k;] *)
Definition skip_primary (fmi : fmindex) (k : index_type) : index_type :=
  if k >=? primary fmi then u32 (k - 1) else k.

(** [rank(fmi, k, c)] *)
Definition rank (fmi : fmindex) (k : index_type) (c : uint8) : index_type :=
  if k =? index_none then 0
  else if k =? length fmi then count fmi c
  else dict_rank (rank_dict fmi) (skip_primary fmi k) c.

(** [rank(fmi, range, c)] *)
Definition rank_range (fmi : fmindex) (range : range_type) (c : uint8)
  : range_type :=
  if x range =? y range then
    let r := rank fmi (x range) c in make_vector r r
  else if x range =? index_none then
    let r := rank fmi (y range) c in make_vector 0 r
  else if y range =? length fmi then
    make_vector (rank fmi (x range) c) (count fmi c)
  else
    dict_rank_range (rank_dict fmi)
      (make_vector (skip_primary fmi (x range)) (skip_primary fmi (y range))) c.

(** [rank4(fmi, k)] *)
Definition rank4 (fmi : fmindex) (k : index_type) : vec4_type :=
  if k =? index_none then make_vector4 0 0 0 0
  else if k =? length fmi then
    make_vector4 (count fmi 0) (count fmi 1) (count fmi 2) (count fmi 3)
  else dict_rank4 (rank_dict fmi) (skip_primary fmi k).

(** The body of the search loops once the symbol is known to be in the
    alphabet: the range-rank call and the two assignments. *)
Definition update_range (fmi : fmindex) (range : range_type) (c : uint8)
  : range_type :=
  let c_rank := rank_range fmi (make_vector (u32 (x range - 1)) (y range)) c in
  make_vector (u32 (L2 fmi c + x c_rank + 1)) (u32 (L2 fmi c + y c_rank)).

(** [for (int32 i = ...; i >= 0 && range.x <= range.y; --i)], with [n = i+1]
    the number of symbols still to scan. *)
Fixpoint match_loop (fmi : fmindex) (pattern : Iterator) (n : nat)
  (range : range_type) : range_type :=
  match n with
  | O => range
  | S i =>
      if x range <=? y range then
        let c := to_uint8 (pattern i) in
        if c >? 3 then make_vector 1 0
        else match_loop fmi pattern i (update_range fmi range c)
      else range
  end.

(** [match(fmi, pattern, pattern_len, in_range)]; the loop counter starts at
    [int32(pattern_len - 1)]. *)
Definition match_range (fmi : fmindex) (pattern : Iterator)
  (pattern_len : Z) (in_range : range_type) : range_type :=
  let i := to_int32 (u32 (pattern_len - 1)) in
  match_loop fmi pattern (Z.to_nat (i + 1)) in_range.

(** [match(fmi, pattern, pattern_len)] *)
Definition match_ (fmi : fmindex) (pattern : Iterator) (pattern_len : Z)
  : range_type :=
  match_range fmi pattern pattern_len (make_vector 0 (length fmi)).

(** [for (uint32 i = 0; i < pattern_len && range.x <= range.y; ++i)], with
    [n = pattern_len - i]. *)
Fixpoint match_reverse_loop (fmi : fmindex) (pattern : Iterator) (n : nat)
  (i : nat) (range : range_type) : range_type :=
  match n with
  | O => range
  | S n' =>
      if x range <=? y range then
        let c := to_uint8 (pattern i) in
        if c >? 3 then make_vector 1 0
        else match_reverse_loop fmi pattern n' (S i) (update_range fmi range c)
      else range
  end.

(** [match_reverse(fmi, pattern, pattern_len)] *)
Definition match_reverse (fmi : fmindex) (pattern : Iterator)
  (pattern_len : Z) : range_type :=
  match_reverse_loop fmi pattern (Z.to_nat pattern_len) 0
    (make_vector 0 (length fmi)).

(** [basic_inv_psi(fmi, i)] *)
Definition basic_inv_psi (fmi : fmindex) (i : index_type) : index_type :=
  if i =? primary fmi then 0
  else
    let k := if i <? primary fmi then i else u32 (i - 1) in
    let c := bwt fmi k in
    u32 (L2 fmi c + dict_rank (rank_dict fmi) k c).

(** The body of the [while] loops of [inv_psi], [locate] and
    [locate_ssa_iterator] (the three repeat it verbatim): the new [j]. *)
Definition lf_step (fmi : fmindex) (j : index_type) : index_type :=
  if negb (j =? primary fmi) then
    let c := if j <? primary fmi then bwt fmi j else bwt fmi (u32 (j - 1)) in
    u32 (L2 fmi c + rank fmi j c)
  else 0.

(** [inv_psi(fmi, i)]: the loop, with [fuel] bounding the iterations. *)
Fixpoint inv_psi_loop (fuel : nat) (fmi : fmindex) (j t : index_type)
  : option range_type :=
  match fuel with
  | O => None
  | S fuel' =>
      match fetch (sa fmi) j with
      | Some _ => Some (make_vector j t)
      | None => inv_psi_loop fuel' fmi (lf_step fmi j) (u32 (t + 1))
      end
  end.

Definition inv_psi (fuel : nat) (fmi : fmindex) (i : index_type)
  : option range_type :=
  inv_psi_loop fuel fmi i 0.

(** [locate(fmi, i)] *)
Fixpoint locate_loop (fuel : nat) (fmi : fmindex) (j t : index_type)
  : option index_type :=
  match fuel with
  | O => None
  | S fuel' =>
      match fetch (sa fmi) j with
      | Some suffix => Some (u32 (suffix + t))
      | None => locate_loop fuel' fmi (lf_step fmi j) (u32 (t + 1))
      end
  end.

Definition locate (fuel : nat) (fmi : fmindex) (i : index_type)
  : option index_type :=
  locate_loop fuel fmi i 0.

(** [locate_ssa_iterator(fmi, i)] *)
Fixpoint locate_ssa_iterator_loop (fuel : nat) (fmi : fmindex)
  (j t : index_type) : option range_type :=
  match fuel with
  | O => None
  | S fuel' =>
      if has (sa fmi) j then Some (make_vector j t)
      else locate_ssa_iterator_loop fuel' fmi (lf_step fmi j) (u32 (t + 1))
  end.

Definition locate_ssa_iterator (fuel : nat) (fmi : fmindex) (i : index_type)
  : option range_type :=
  locate_ssa_iterator_loop fuel fmi i 0.

(** [lookup_ssa_iterator(fmi, it)]: [suffix] is left unset when the fetch
    fails, and the result is then undetermined ([None]). *)
Definition lookup_ssa_iterator (fmi : fmindex) (it : range_type)
  : option index_type :=
  match fetch (sa fmi) (x it) with
  | Some suffix => Some (u32 (suffix + y it))
  | None => None
  end.

End Queries.

(** The pattern read from its last symbol to its first, for a pattern of
    [n] symbols. *)
Definition reverse_pattern (pattern : Iterator) (n : nat) : Iterator :=
  fun i => pattern (n - 1 - i)%nat.

(** The pattern from position [k] on. *)
Definition drop_pattern (pattern : Iterator) (k : nat) : Iterator :=
  fun i => pattern (k + i)%nat.

Definition pattern_of_list (l : list uint8) : Iterator :=
  fun i => nth i l 0.

(** [walk fmi n i]: the row reached from [i] after [n] iterations of the
    loop body of [locate]. *)
Fixpoint walk {D S : Type} `{RankDictionary D} (fmi : fm_index D S) (n : nat)
  (i : index_type) : index_type :=
  match n with
  | O => i
  | S n' => walk fmi n' (lf_step fmi i)
  end.

(** ** Conditions on the template parameters *)

(** [has(j)] holds exactly when [fetch(j, .)] succeeds. *)
Definition has_iff_fetch {D S : Type} `{SuffixArray S} (fmi : fm_index D S)
  : Prop :=
  forall j, has (sa fmi) j = true <-> exists v, fetch (sa fmi) j = Some v.

(** The stored BWT positions [0 .. L-1]: the symbol at [k] occurs at least
    once in [0..k], and its LF-mapping [L2(c) + rank(k,c)] is a row of the
    index. *)
Definition lf_well_formed {D S : Type} `{RankDictionary D}
  (fmi : fm_index D S) : Prop :=
  forall k, 0 <= k < length fmi ->
    let c := bwt fmi k in
    1 <= dict_rank (rank_dict fmi) k c
    /\ 0 <= L2 fmi c
    /\ L2 fmi c + dict_rank (rank_dict fmi) k c <= length fmi.

(** ** A reference instance of the two interfaces

    An uncompressed rank dictionary (the stored BWT as a list, ranks by
    counting) and a sampled suffix array kept as (row, coordinate) pairs. *)

(** occurrences of [c] among positions [0..k] of [text] *)
Fixpoint occ (text : list uint8) (k : Z) (c : uint8) : Z :=
  match text with
  | [] => 0
  | s :: text' =>
      if k <? 0 then 0
      else (if s =? c then 1 else 0) + occ text' (k - 1) c
  end.

Definition plain_rank (text : list uint8) (k : index_type) (c : uint8)
  : index_type :=
  if k =? index_none then 0 else occ text k c.

#[export] Instance plain_dictionary : RankDictionary (list uint8) := {|
  dict_rank := plain_rank;
  dict_rank_range text r c :=
    make_vector (plain_rank text (x r) c) (plain_rank text (y r) c);
  dict_rank4 text k :=
    make_vector4 (plain_rank text k 0) (plain_rank text k 1)
                 (plain_rank text k 2) (plain_rank text k 3)
|}.

Definition ssa_pairs := list (index_type * index_type).

Definition ssa_find (s : ssa_pairs) (i : index_type)
  : option (index_type * index_type) :=
  find (fun p => fst p =? i) s.

#[export] Instance pairs_suffix_array : SuffixArray ssa_pairs := {|
  has s i := match ssa_find s i with Some _ => true | None => false end;
  fetch s i := option_map snd (ssa_find s i)
|}.

(** The index of the text ACGTACGT (A=0, C=1, G=2, T=3): the sorted
    rotations of ACGTACGT$ end in T T $ A A C C G G, so the stored BWT is
    TTAACCGG and the sentinel row is 2; rows 0, 4 and 8 are sampled. *)
Definition acgt_L2_table : list index_type := [0; 2; 4; 6; 8].

Definition acgt_bwt : list uint8 := [3; 3; 0; 0; 1; 1; 2; 2].

Definition acgt_index : fm_index (list uint8) ssa_pairs := {|
  length := 8;
  primary := 2;
  count c := nth (Z.to_nat (c + 1)) acgt_L2_table 0
             - nth (Z.to_nat c) acgt_L2_table 0;
  L2 c := nth (Z.to_nat c) acgt_L2_table 0;
  rank_dict := acgt_bwt;
  sa := [(0, 8); (4, 1); (8, 3)];
  bwt k := nth (Z.to_nat k) acgt_bwt 0
|}.

(** Sample patterns: T G N A, and an iterator that yields N at every
    position. *)
Definition pattern_TGNA : Iterator := pattern_of_list [3; 2; 4; 0].

Definition pattern_all_N : Iterator := fun _ => 4.

(** ** The range overload of [rank4] *)

(** The dictionary's [rank4(dict, range, outl, outh)]: the two outputs. *)
Class RankDictionaryRange4 (D : Type) := {
  dict_rank4_range : D -> range_type -> vec4_type * vec4_type
}.

(** [rank4(fmi, range, outl, outh)], returning [( *outl, *outh )] *)
Definition rank4_range {D S : Type} `{RankDictionary D}
  `{RankDictionaryRange4 D} (fmi : fm_index D S) (range : range_type)
  : vec4_type * vec4_type :=
  if x range =? y range then
    let outl := rank4 fmi (x range) in (outl, outl)
  else if x range =? index_none then
    (make_vector4 0 0 0 0, rank4 fmi (y range))
  else if y range =? length fmi then
    (rank4 fmi (x range),
     make_vector4 (count fmi 0) (count fmi 1) (count fmi 2) (count fmi 3))
  else
    dict_rank4_range (rank_dict fmi)
      (make_vector (skip_primary fmi (x range)) (skip_primary fmi (y range))).

#[export] Instance plain_dictionary_range4 : RankDictionaryRange4 (list uint8)
  := {|
  dict_rank4_range text r := (dict_rank4 text (x r), dict_rank4 text (y r))
|}.

(** The rows of an index of length [L]: a range within them has
    [0 <= x <= L + 1] and [0 <= y <= L], so that a non-empty one has
    [0 <= x <= y <= L]. *)
Definition within_rows {D S : Type} (fmi : fm_index D S) (range : range_type)
  : Prop :=
  0 <= x range <= length fmi + 1 /\ 0 <= y range <= length fmi.

(** The index of the text AAAA: the sorted rotations of AAAA$ end in
    A A A A $, so the stored BWT is AAAA and the sentinel row is 4; rows 0
    and 4 are sampled. The symbols C, G and T do not occur. *)
Definition aaaa_L2_table : list index_type := [0; 4; 4; 4; 4].

Definition aaaa_bwt : list uint8 := [0; 0; 0; 0].

Definition aaaa_index : fm_index (list uint8) ssa_pairs := {|
  length := 4;
  primary := 4;
  count c := nth (Z.to_nat (c + 1)) aaaa_L2_table 0
             - nth (Z.to_nat c) aaaa_L2_table 0;
  L2 c := nth (Z.to_nat c) aaaa_L2_table 0;
  rank_dict := aaaa_bwt;
  sa := [(0, 4); (4, 0)];
  bwt k := nth (Z.to_nat k) aaaa_bwt 0
|}.

(** ** Reads as patterns (the [ReadStream] helpers of the sequence I/O) *)

Inductive ReadType := STANDARD | COMPLEMENT.
Inductive DirType := FORWARD | REVERSE.

(** [ReverseXform<uint32>]: the functor holds [pos]. *)
Record ReverseXform := { reverse_pos : index_type }.

(** [ReverseXform(n) : pos(n-1)] *)
Definition ReverseXform_of (n : index_type) : ReverseXform :=
  {| reverse_pos := u32 (n - 1) |}.

(** [operator() (i)  { return pos-i; }] *)
Definition reverse_apply (f : ReverseXform) (i : index_type) : index_type :=
  u32 (reverse_pos f - i).

(** [OffsetXform<uint32>] *)
Record OffsetXform := { offset_pos : index_type }.

Definition OffsetXform_of (n : index_type) : OffsetXform :=
  {| offset_pos := n |}.

(** [operator() (i)  { return pos+i; }] *)
Definition offset_apply (f : OffsetXform) (i : index_type) : index_type :=
  u32 (offset_pos f + i).

(** [ReadStream<StreamType,QualType>]: the two streams are indexed by a
    [uint32]. *)
Record ReadStream := {
  rev : bool;
  comp : bool;
  first : index_type;
  last : index_type;
  stream : index_type -> uint8;
  qual : index_type -> uint8
}.

(** [ReadStream(s, q, range)] *)
Definition ReadStream_of (s q : index_type -> uint8) (range : range_type)
  : ReadStream :=
  {| rev := false; comp := false;
     first := x range; last := u32 (y range - 1);
     stream := s; qual := q |}.

(** [set_flags(d, t)] *)
Definition set_flags (read : ReadStream) (d : DirType) (t : ReadType)
  : ReadStream :=
  {| rev := match d with REVERSE => true | FORWARD => false end;
     comp := match t with COMPLEMENT => true | STANDARD => false end;
     first := first read; last := last read;
     stream := stream read; qual := qual read |}.

(** [length()  { return 1+last-first; }] *)
Definition read_length (read : ReadStream) : index_type :=
  u32 (1 + last read - first read).

(** [operator[] (pos)] *)
Definition read_at (read : ReadStream) (pos : index_type) : uint8 :=
  let index :=
    if rev read then u32 (last read - pos) else u32 (first read + pos) in
  let c := stream read index in
  if comp read then (if c <? 4 then 3 - c else c) else c.

(** [quality(pos)] *)
Definition quality (read : ReadStream) (pos : index_type) : uint8 :=
  let index :=
    if rev read then u32 (last read - pos) else u32 (first read + pos) in
  qual read index.

(** A read handed to [match] as its pattern iterator. *)
Definition read_pattern (read : ReadStream) : Iterator :=
  fun i => read_at read (Z.of_nat i).

(** ** The protein alphabet (nvbio/strings/alphabet_inl.h) *)

(** [protein_to_char(c)] *)
Definition protein_to_char (c : uint8) : ascii :=
  if c =? 0 then "A" else if c =? 1 then "C" else if c =? 2 then "D"
  else if c =? 3 then "E" else if c =? 4 then "F" else if c =? 5 then "G"
  else if c =? 6 then "H" else if c =? 7 then "I" else if c =? 8 then "K"
  else if c =? 9 then "L" else if c =? 10 then "M" else if c =? 11 then "N"
  else if c =? 12 then "O" else if c =? 13 then "P" else if c =? 14 then "Q"
  else if c =? 15 then "R" else if c =? 16 then "S" else if c =? 17 then "T"
  else if c =? 18 then "V" else if c =? 19 then "W" else if c =? 20 then "Y"
  else if c =? 21 then "B" else if c =? 22 then "Z" else if c =? 23 then "X"
  else "N".

(** [char_to_protein(c)] *)
Definition char_to_protein (c : ascii) : uint8 :=
  if Ascii.eqb c "A" then 0 else if Ascii.eqb c "C" then 1
  else if Ascii.eqb c "D" then 2 else if Ascii.eqb c "E" then 3
  else if Ascii.eqb c "F" then 4 else if Ascii.eqb c "G" then 5
  else if Ascii.eqb c "H" then 6 else if Ascii.eqb c "I" then 7
  else if Ascii.eqb c "K" then 8 else if Ascii.eqb c "L" then 9
  else if Ascii.eqb c "M" then 10 else if Ascii.eqb c "N" then 11
  else if Ascii.eqb c "O" then 12 else if Ascii.eqb c "P" then 13
  else if Ascii.eqb c "Q" then 14 else if Ascii.eqb c "R" then 15
  else if Ascii.eqb c "S" then 16 else if Ascii.eqb c "T" then 17
  else if Ascii.eqb c "V" then 18 else if Ascii.eqb c "W" then 19
  else if Ascii.eqb c "Y" then 20 else if Ascii.eqb c "B" then 21
  else if Ascii.eqb c "Z" then 22 else if Ascii.eqb c "X" then 23
  else 11.

(** The letters of the protein alphabet, in code order. *)
Definition protein_letters : list ascii :=
  ["A"; "C"; "D"; "E"; "F"; "G"; "H"; "I"; "K"; "L"; "M"; "N"; "O"; "P";
   "Q"; "R"; "S"; "T"; "V"; "W"; "Y"; "B"; "Z"; "X"]%char.

(** [to_string<PROTEIN>(begin, n, string)]: the characters written to
    [string[0 .. n]], the terminator included; [to_char] takes each
    [begin[i]] as a [const uint8]. *)
Fixpoint protein_chars (begin : Iterator) (i n : nat) : list ascii :=
  match n with
  | O => []
  | S n' =>
      protein_to_char (to_uint8 (begin i)) :: protein_chars begin (S i) n'
  end.

Definition to_string_protein (begin : Iterator) (n : nat) : list ascii :=
  protein_chars begin 0 n ++ [zero].

(** [from_string<PROTEIN>(begin, symbols)]: the symbols written, reading
    up to the first ['\0']; a buffer without one is read past its end
    ([None]). *)
Fixpoint from_string_protein (begin : list ascii) : option (list uint8) :=
  match begin with
  | [] => None
  | c :: rest =>
      if Ascii.eqb c zero then Some []
      else option_map (cons (char_to_protein c)) (from_string_protein rest)
  end.

(** ** Q-grams of a string (nvbio/qgram/qgram.h) *)

Definition u64 (z : Z) : Z := z mod 2 ^ 64.

(** [string_qgram_functor<string_type>]: the string is indexed by a
    [uint32]. *)
Record string_qgram_functor := {
  Q : Z;
  symbol_size : Z;
  symbol_mask : Z;
  string_len : Z;
  string : index_type -> uint8
}.

(** the constructor: [symbol_mask( (1u << _symbol_size) - 1u )] *)
Definition string_qgram_functor_of (_Q _symbol_size _string_len : Z)
  (_string : index_type -> uint8) : string_qgram_functor :=
  {| Q := _Q;
     symbol_size := _symbol_size;
     symbol_mask := u32 (u32 (Z.shiftl 1 _symbol_size) - 1);
     string_len := _string_len;
     string := _string |}.

(** [for (uint32 j = 0; j < Q; ++j) qgram |= uint64(...) << (j*symbol_size)],
    with [n = Q - j] iterations left; the shift is that of a [uint64] by
    less than 64. *)
Fixpoint qgram_loop (f : string_qgram_functor) (i : index_type) (n : nat)
  (j : Z) (qgram : Z) : Z :=
  match n with
  | O => qgram
  | S n' =>
      let symbol :=
        if u32 (i + j) <? string_len f
        then Z.land (string f (u32 (i + j))) (symbol_mask f)
        else 0 in
      qgram_loop f i n' (j + 1)
        (Z.lor qgram (u64 (Z.shiftl symbol (u32 (j * symbol_size f)))))
  end.

(** [operator() (i)] *)
Definition qgram_at (f : string_qgram_functor) (i : index_type) : Z :=
  qgram_loop f i (Z.to_nat (Q f)) 0 0.

(** Symbol [j] of the q-gram at [i]: the string's symbol at [i + j], cut
    to [symbol_size] bits, and 0 past the end of the string. *)
Definition qgram_symbol (f : string_qgram_functor) (i : index_type) (j : Z)
  : Z :=
  if u32 (i + j) <? string_len f
  then string f (u32 (i + j)) mod 2 ^ symbol_size f
  else 0.

(** The bits that the iterations [j0 .. j0+n-1] of the loop set. *)
Fixpoint fields_bit (f : string_qgram_functor) (i : index_type) (n : nat)
  (j0 b : Z) : bool :=
  match n with
  | O => false
  | S n' =>
      ((j0 * symbol_size f <=? b) && (b <? (j0 + 1) * symbol_size f)
       && Z.testbit (qgram_symbol f i j0) (b - j0 * symbol_size f))
      || fields_bit f i n' (j0 + 1) b
  end.

(** ** The index of ACGTACGT at work *)

Example match_ACGT :
  match_ acgt_index (pattern_of_list [0; 1; 2; 3]) 4 = make_vector 1 2.
Proof. reflexivity. Qed.

Example match_ACGN :
  match_ acgt_index (pattern_of_list [0; 1; 2; 4]) 4 = make_vector 1 0.
Proof. reflexivity. Qed.

Example rank_totals :
  map (rank acgt_index 8) [0; 1; 2; 3] = [2; 2; 2; 2]
  /\ map (rank acgt_index index_none) [0; 1; 2; 3] = [0; 0; 0; 0].
Proof. split; reflexivity. Qed.

Example rank4_row_5 : rank4 acgt_index 5 = make_vector4 2 1 0 2.
Proof. reflexivity. Qed.

Example locate_rows :
  map (locate 5 acgt_index) [0; 1; 3; 4; 5; 6; 7; 8]
  = map Some [8; 4; 5; 1; 6; 2; 7; 3].
Proof. reflexivity. Qed.

Example basic_inv_psi_rows :
  map (basic_inv_psi acgt_index) [0; 1; 2; 3; 4; 5; 6; 7; 8]
  = [7; 8; 0; 1; 2; 3; 4; 5; 6].
Proof. reflexivity. Qed.

(** A pattern value of 256 is stored as symbol 0, and searched as A. *)
Example match_256 :
  match_ acgt_index (pattern_of_list [256]) 1 = make_vector 1 2.
Proof. reflexivity. Qed.

Example protein_string_256 :
  to_string_protein (pattern_of_list [256; 1; 267]) 3
  = ["A"; "C"; "N"; zero]%char
  /\ from_string_protein ["A"; "C"; "N"; zero]%char = Some [0; 1; 11].
Proof. split; reflexivity. Qed.

(** ** Arithmetic of the machine integers *)

Lemma u32_small (z : Z) : 0 <= z < 2 ^ 32 -> u32 z = z.
Proof. intros Hz. unfold u32. apply Z.mod_small. exact Hz. Qed.

Lemma u32_minus_one : u32 (-1) = index_none.
Proof. reflexivity. Qed.

Lemma to_uint8_small (z : Z) : 0 <= z < 2 ^ 8 -> to_uint8 z = z.
Proof. intros Hz. unfold to_uint8. apply Z.mod_small. exact Hz. Qed.

Lemma to_uint8_bounds (z : Z) : 0 <= to_uint8 z < 2 ^ 8.
Proof. unfold to_uint8. apply Z.mod_pos_bound. reflexivity. Qed.

(** The start of the loop counter of [match]: [pattern_len] iterations as
    long as [pattern_len - 1] fits [int32]. *)
Lemma match_counter_small (n : Z) :
  0 <= n <= 2 ^ 31 -> Z.to_nat (to_int32 (u32 (n - 1)) + 1) = Z.to_nat n.
Proof.
  intros Hn. destruct (Z.eq_dec n 0) as [-> | Hpos]; [reflexivity |].
  rewrite u32_small by lia. unfold to_int32.
  destruct (n - 1 <? 2 ^ 31) eqn:E.
  - f_equal. lia.
  - apply Z.ltb_ge in E. lia.
Qed.

(** Past [2^31] symbols the counter starts negative. *)
Lemma match_counter_large (n : Z) :
  2 ^ 31 < n < 2 ^ 32 -> Z.to_nat (to_int32 (u32 (n - 1)) + 1) = O.
Proof.
  intros Hn. rewrite u32_small by lia. unfold to_int32.
  destruct (n - 1 <? 2 ^ 31) eqn:E.
  - apply Z.ltb_lt in E. lia.
  - lia.
Qed.

(** ** The reference dictionary *)

Lemma occ_nonneg (text : list uint8) (k : Z) (c : uint8) : 0 <= occ text k c.
Proof.
  revert k. induction text as [| s text IH]; intros k; simpl; [lia |].
  destruct (k <? 0); [lia |]. specialize (IH (k - 1)).
  destruct (s =? c); lia.
Qed.

Lemma occ_negative (text : list uint8) (k : Z) (c : uint8) :
  k < 0 -> occ text k c = 0.
Proof.
  intros Hk. destruct text as [| s text]; simpl; [reflexivity |].
  apply Z.ltb_lt in Hk. rewrite Hk. reflexivity.
Qed.

Lemma occ_monotone (text : list uint8) (c : uint8) (k1 k2 : Z) :
  k1 <= k2 -> occ text k1 c <= occ text k2 c.
Proof.
  revert k1 k2. induction text as [| s text IH]; intros k1 k2 Hk; simpl; [lia |].
  destruct (k1 <? 0) eqn:E1.
  - destruct (k2 <? 0); [lia |].
    pose proof (occ_nonneg text (k2 - 1) c). destruct (s =? c); lia.
  - apply Z.ltb_ge in E1. destruct (k2 <? 0) eqn:E2.
    + apply Z.ltb_lt in E2. lia.
    + specialize (IH (k1 - 1) (k2 - 1)). lia.
Qed.

(** Over the signed positions [-1 .. len-1] the reference ranks are
    unsigned and non-decreasing. *)
Lemma plain_dictionary_monotone (text : list uint8) (c : uint8) (len a b : Z) :
  len < 2 ^ 32 - 1 -> -1 <= a <= b -> b < len ->
  0 <= plain_rank text (u32 a) c <= plain_rank text (u32 b) c.
Proof.
  intros Hlen Hab Hb. unfold plain_rank.
  assert (Hu : forall k, -1 <= k < len ->
            (if u32 k =? index_none then 0 else occ text (u32 k) c)
            = occ text k c).
  { intros k Hk. destruct (Z.eq_dec k (-1)) as [-> | Hne].
    - rewrite u32_minus_one, Z.eqb_refl. symmetry. apply occ_negative. lia.
    - rewrite u32_small by lia.
      destruct (k =? index_none) eqn:E; [| reflexivity].
      apply Z.eqb_eq in E. unfold index_none in E. lia. }
  rewrite !Hu by lia. split; [apply occ_nonneg | apply occ_monotone; lia].
Qed.

Lemma pairs_has_fetch (s : ssa_pairs) (j : index_type) :
  has s j = true <-> exists v, fetch s j = Some v.
Proof.
  simpl. destruct (ssa_find s j) as [p |]; simpl; split.
  - intros _. exists (snd p). reflexivity.
  - reflexivity.
  - discriminate.
  - intros [v Hv]. discriminate.
Qed.

Section RankProperties.

Context {TRankDictionary TSuffixArray : Type}
  `{RankDictionary TRankDictionary} `{SuffixArray TSuffixArray}.

Implicit Types (fmi : fm_index TRankDictionary TSuffixArray).
Implicit Types (pattern : Iterator) (range in_range : range_type).
Implicit Types (k i j t : index_type) (c : uint8).

(** ** Rank *)

Lemma rank_none fmi c : rank fmi index_none c = 0.
Proof. unfold rank. rewrite Z.eqb_refl. reflexivity. Qed.

Lemma rank_length fmi c :
  length fmi <> index_none -> rank fmi (length fmi) c = count fmi c.
Proof.
  intros HL. unfold rank. apply Z.eqb_neq in HL. rewrite HL, Z.eqb_refl.
  reflexivity.
Qed.

Lemma rank_inner fmi k c :
  k <> index_none -> k <> length fmi ->
  rank fmi k c = dict_rank (rank_dict fmi) (skip_primary fmi k) c.
Proof.
  intros H1 H2. unfold rank. apply Z.eqb_neq in H1, H2. rewrite H1, H2.
  reflexivity.
Qed.

(** C2: on an index of length [L < 2^32 - 1], [rank] at [index_type(-1)]
    is 0, [rank] at [L] is [count(c)] whatever the dictionary holds, and at
    every [0 <= k < L] it is the dictionary's rank taken at [k-1] when
    [k >= primary] and at [k] otherwise. *)
Theorem rank_cases fmi c :
  0 <= length fmi < 2 ^ 32 - 1 ->
  rank fmi index_none c = 0
  /\ rank fmi (length fmi) c = count fmi c
  /\ forall k, 0 <= k < length fmi ->
       rank fmi k c =
       dict_rank (rank_dict fmi)
         (if k >=? primary fmi then u32 (k - 1) else k) c.
Proof.
  intros HL. split; [| split].
  - apply rank_none.
  - apply rank_length. unfold index_none. lia.
  - intros k Hk. apply rank_inner; unfold index_none; lia.
Qed.

(** C3: when the dictionary's [rank4] is the four [rank]s of the
    dictionary, [rank4(fmi,k)] is the four [rank(fmi,k,c)], at every [k]
    (so at -1, at [L] and in between). *)
Theorem rank4_consistent fmi k :
  (forall q, dict_rank4 (rank_dict fmi) q =
             make_vector4 (dict_rank (rank_dict fmi) q 0)
                          (dict_rank (rank_dict fmi) q 1)
                          (dict_rank (rank_dict fmi) q 2)
                          (dict_rank (rank_dict fmi) q 3)) ->
  rank4 fmi k =
  make_vector4 (rank fmi k 0) (rank fmi k 1) (rank fmi k 2) (rank fmi k 3).
Proof.
  intros Hdict. unfold rank4, rank.
  destruct (k =? index_none); [reflexivity |].
  destruct (k =? length fmi); [reflexivity |].
  apply Hdict.
Qed.

(** The range overload, branch by branch. *)
Lemma rank_range_point fmi range c :
  x range = y range ->
  rank_range fmi range c =
  make_vector (rank fmi (x range) c) (rank fmi (x range) c).
Proof.
  intros Hxy. unfold rank_range. apply Z.eqb_eq in Hxy. rewrite Hxy.
  reflexivity.
Qed.

Lemma rank_range_left_open fmi range c :
  x range = index_none ->
  rank_range fmi range c = make_vector 0 (rank fmi (y range) c).
Proof.
  intros Hx. unfold rank_range. destruct (x range =? y range) eqn:Exy.
  - apply Z.eqb_eq in Exy. rewrite <- Exy, Hx, rank_none. reflexivity.
  - rewrite Hx, Z.eqb_refl. reflexivity.
Qed.

Lemma rank_range_generic fmi range c :
  x range <> y range -> x range <> index_none -> y range <> length fmi ->
  rank_range fmi range c =
  dict_rank_range (rank_dict fmi)
    (make_vector (skip_primary fmi (x range)) (skip_primary fmi (y range))) c.
Proof.
  intros H1 H2 H3. unfold rank_range.
  apply Z.eqb_neq in H1, H2, H3. rewrite H1, H2, H3. reflexivity.
Qed.

(** The range overload on any pair of endpoints, also outside the rows:
    it is [rank] at both ends for a point range, for [x = -1], and
    otherwise when [y] is not [index_type(-1)] and, for [x = L], [count(c)]
    is the dictionary's rank at the adjusted [L]. *)
Lemma rank_range_cases fmi c :
  (forall r, dict_rank_range (rank_dict fmi) r c =
             make_vector (dict_rank (rank_dict fmi) (x r) c)
                         (dict_rank (rank_dict fmi) (y r) c)) ->
  (forall range, x range = y range ->
     rank_range fmi range c =
     make_vector (rank fmi (x range) c) (rank fmi (x range) c))
  /\ (forall range, x range = index_none ->
        rank_range fmi range c = make_vector 0 (rank fmi (y range) c))
  /\ (forall range,
        x range <> y range -> x range <> index_none ->
        y range <> index_none ->
        (x range = length fmi ->
         count fmi c =
         dict_rank (rank_dict fmi) (skip_primary fmi (length fmi)) c) ->
        rank_range fmi range c =
        make_vector (rank fmi (x range) c) (rank fmi (y range) c))
  /\ (forall range,
        x range <> y range -> x range <> index_none ->
        y range <> length fmi ->
        rank_range fmi range c =
        make_vector
          (dict_rank (rank_dict fmi) (skip_primary fmi (x range)) c)
          (dict_rank (rank_dict fmi) (skip_primary fmi (y range)) c)).
Proof.
  intros Hdict. split; [| split; [| split]].
  - intros range. apply rank_range_point.
  - intros range. apply rank_range_left_open.
  - intros range Hxy Hx Hy Hcount.
    destruct (Z.eq_dec (y range) (length fmi)) as [HyL | HyL].
    + unfold rank_range. apply Z.eqb_neq in Hxy, Hx. rewrite Hxy, Hx.
      rewrite HyL, Z.eqb_refl. f_equal. symmetry. apply rank_length.
      congruence.
    + rewrite rank_range_generic, Hdict by assumption. simpl.
      rewrite (rank_inner fmi (y range)) by assumption. f_equal.
      destruct (Z.eq_dec (x range) (length fmi)) as [HxL | HxL].
      * rewrite HxL, rank_length by congruence. symmetry. apply Hcount.
        exact HxL.
      * symmetry. apply rank_inner; assumption.
  - intros range Hxy Hx Hy.
    rewrite rank_range_generic, Hdict by assumption. reflexivity.
Qed.


(** C9: on an index of length [L < 2^32 - 1] whose dictionary ranks are
    unsigned and non-decreasing over the positions [-1 .. L-1] and whose
    [count(c)] is the dictionary's rank at [L-1], [rank] is monotone over
    the rows [-1 .. L]. *)
Theorem rank_monotone fmi c :
  0 <= length fmi < 2 ^ 32 - 1 ->
  (forall a b, -1 <= a <= b -> b < length fmi ->
     0 <= dict_rank (rank_dict fmi) (u32 a) c
       <= dict_rank (rank_dict fmi) (u32 b) c) ->
  count fmi c = dict_rank (rank_dict fmi) (u32 (length fmi - 1)) c ->
  forall k1 k2, -1 <= k1 <= k2 -> k2 <= length fmi ->
    rank fmi (u32 k1) c <= rank fmi (u32 k2) c.
Proof.
  intros HL Hmono Htotal.
  assert (Hadj : forall k, 0 <= k <= length fmi ->
            rank fmi (u32 k) c =
            dict_rank (rank_dict fmi)
              (u32 (if k =? length fmi then length fmi - 1
                    else if k >=? primary fmi then k - 1 else k)) c).
  { intros k Hk. rewrite (u32_small k) by lia.
    destruct (k =? length fmi) eqn:E.
    - apply Z.eqb_eq in E. subst k. rewrite rank_length, Htotal.
      + reflexivity.
      + unfold index_none. lia.
    - apply Z.eqb_neq in E. rewrite rank_inner.
      + unfold skip_primary. destruct (k >=? primary fmi); [reflexivity |].
        rewrite u32_small by lia. reflexivity.
      + unfold index_none. lia.
      + exact E. }
  intros k1 k2 Hk HkL.
  destruct (Z.eq_dec k1 (-1)) as [-> | Hk1].
  - rewrite u32_minus_one, rank_none.
    destruct (Z.eq_dec k2 (-1)) as [-> | Hk2].
    + rewrite u32_minus_one, rank_none. lia.
    + rewrite Hadj by lia.
      match goal with |- _ <= dict_rank _ (u32 ?q) _ =>
        assert (Hq : -1 <= q < length fmi)
      end.
      { destruct (k2 =? length fmi) eqn:E;
          [| apply Z.eqb_neq in E; destruct (k2 >=? primary fmi)]; lia. }
      match goal with |- _ <= dict_rank _ (u32 ?q) _ =>
        pose proof (Hmono q q ltac:(lia) ltac:(lia))
      end. lia.
  - rewrite !Hadj by lia. apply Hmono.
    + destruct (k1 =? length fmi) eqn:E1;
        [apply Z.eqb_eq in E1 | apply Z.eqb_neq in E1];
      (destruct (k2 =? length fmi) eqn:E2;
        [apply Z.eqb_eq in E2 | apply Z.eqb_neq in E2]);
      destruct (k1 >=? primary fmi) eqn:P1;
      destruct (k2 >=? primary fmi) eqn:P2;
      rewrite ?Z.geb_leb in P1, P2;
      try apply Z.leb_le in P1; try apply Z.leb_gt in P1;
      try apply Z.leb_le in P2; try apply Z.leb_gt in P2; lia.
    + destruct (k2 =? length fmi) eqn:E2;
        [| apply Z.eqb_neq in E2; destruct (k2 >=? primary fmi)]; lia.
Qed.

End RankProperties.

Lemma rank_cases_witness :
  rank acgt_index index_none 1 = 0
  /\ rank acgt_index (length acgt_index) 1 = count acgt_index 1
  /\ forall k, 0 <= k < length acgt_index ->
       rank acgt_index k 1 =
       dict_rank (rank_dict acgt_index)
         (if k >=? primary acgt_index then u32 (k - 1) else k) 1.
Proof. apply (rank_cases acgt_index 1). simpl. lia. Defined.

Lemma rank4_consistent_witness :
  rank4 acgt_index 5 =
  make_vector4 (rank acgt_index 5 0) (rank acgt_index 5 1)
               (rank acgt_index 5 2) (rank acgt_index 5 3).
Proof. apply (rank4_consistent acgt_index 5). intros q. reflexivity. Defined.



Lemma rank_monotone_witness :
  rank acgt_index (u32 (-1)) 2 <= rank acgt_index (u32 7) 2.
Proof.
  apply (rank_monotone acgt_index 2).
  - simpl. lia.
  - intros a b Hab Hb. apply plain_dictionary_monotone with (len := 8).
    + lia.
    + exact Hab.
    + exact Hb.
  - reflexivity.
  - lia.
  - simpl. lia.
Defined.

(** ** Backward search *)

Section MatchProperties.

Context {TRankDictionary TSuffixArray : Type}
  `{RankDictionary TRankDictionary} `{SuffixArray TSuffixArray}.

Implicit Types (fmi : fm_index TRankDictionary TSuffixArray).
Implicit Types (pattern : Iterator) (range in_range : range_type).

Lemma empty_guard range : is_empty range -> (x range <=? y range) = false.
Proof. unfold is_empty. intros Hr. apply Z.leb_gt. lia. Qed.

Lemma guard_empty range : (x range <=? y range) = false -> is_empty range.
Proof. unfold is_empty. intros Hr. apply Z.leb_gt in Hr. lia. Qed.

Lemma canonical_empty : is_empty (make_vector 1 0).
Proof. unfold is_empty. simpl. lia. Qed.

(** An empty range stops both loops at once. *)
Lemma match_loop_empty fmi pattern n range :
  is_empty range -> match_loop fmi pattern n range = range.
Proof.
  intros Hr. destruct n as [| i]; simpl; [reflexivity |].
  rewrite (empty_guard _ Hr). reflexivity.
Qed.

Lemma match_reverse_loop_empty fmi pattern n i range :
  is_empty range -> match_reverse_loop fmi pattern n i range = range.
Proof.
  intros Hr. destruct n as [| n']; simpl; [reflexivity |].
  rewrite (empty_guard _ Hr). reflexivity.
Qed.

(** Scanning [a + b] symbols is scanning the last [b], then the first [a]:
    an early exit leaves an empty range, on which the rest does nothing. *)
Lemma match_loop_split fmi pattern a b range :
  match_loop fmi pattern (a + b) range =
  match_loop fmi pattern a (match_loop fmi (drop_pattern pattern a) b range).
Proof.
  revert range. induction b as [| b IH]; intros range.
  - rewrite Nat.add_0_r. reflexivity.
  - rewrite Nat.add_succ_r. simpl. unfold drop_pattern at 1.
    destruct (x range <=? y range) eqn:Hguard.
    + destruct (to_uint8 (pattern (a + b)%nat) >? 3).
      * symmetry. apply match_loop_empty, canonical_empty.
      * apply IH.
    + symmetry. apply match_loop_empty, guard_empty, Hguard.
Qed.

Lemma match_reverse_loop_split fmi pattern a b i range :
  match_reverse_loop fmi pattern (a + b) i range =
  match_reverse_loop fmi pattern b (i + a)
    (match_reverse_loop fmi pattern a i range).
Proof.
  revert i range. induction a as [| a IH]; intros i range.
  - rewrite Nat.add_0_r. reflexivity.
  - simpl. destruct (x range <=? y range) eqn:Hguard.
    + destruct (to_uint8 (pattern i) >? 3).
      * symmetry. apply match_reverse_loop_empty, canonical_empty.
      * rewrite IH. f_equal. lia.
    + symmetry. apply match_reverse_loop_empty, guard_empty, Hguard.
Qed.

(** The loops read the pattern only below the bound. *)
Lemma match_loop_ext fmi p q n range :
  (forall i, (i < n)%nat -> p i = q i) ->
  match_loop fmi p n range = match_loop fmi q n range.
Proof.
  revert range. induction n as [| n IH]; intros range Hpq; simpl.
  - reflexivity.
  - rewrite (Hpq n) by lia. destruct (x range <=? y range); [| reflexivity].
    destruct (to_uint8 (q n) >? 3); [reflexivity |]. apply IH.
    intros i Hi. apply Hpq. lia.
Qed.

(** The forward loop is the backward loop on the reversed window. *)
Lemma match_reverse_loop_as_match_loop fmi pattern n i range :
  match_reverse_loop fmi pattern n i range =
  match_loop fmi (fun j => pattern (i + (n - 1 - j))%nat) n range.
Proof.
  revert i range. induction n as [| n IH]; intros i range; simpl.
  - reflexivity.
  - replace (i + (n - 0 - n))%nat with i by lia.
    destruct (x range <=? y range); [| reflexivity].
    destruct (to_uint8 (pattern i) >? 3); [reflexivity |].
    rewrite IH. apply match_loop_ext. intros j Hj. f_equal. lia.
Qed.

Lemma match_range_small fmi pattern n in_range :
  0 <= n <= 2 ^ 31 ->
  match_range fmi pattern n in_range =
  match_loop fmi pattern (Z.to_nat n) in_range.
Proof.
  intros Hn. unfold match_range. rewrite match_counter_small by exact Hn.
  reflexivity.
Qed.

(** Past [2^31] symbols [match] scans nothing. *)
Lemma match_range_large fmi pattern n in_range :
  2 ^ 31 < n < 2 ^ 32 -> match_range fmi pattern n in_range = in_range.
Proof.
  intros Hn. unfold match_range. rewrite match_counter_large by exact Hn.
  reflexivity.
Qed.

Lemma match_range_empty fmi pattern n in_range :
  is_empty in_range -> match_range fmi pattern n in_range = in_range.
Proof. intros Hr. unfold match_range. apply match_loop_empty, Hr. Qed.

Lemma match_range_zero fmi pattern in_range :
  match_range fmi pattern 0 in_range = in_range.
Proof. reflexivity. Qed.

(** Up to [2^31] symbols, [match_reverse] is [match] on the reversed
    pattern. *)
Lemma match_reverse_small fmi pattern n :
  0 <= n <= 2 ^ 31 ->
  match_reverse fmi pattern n =
  match_ fmi (reverse_pattern pattern (Z.to_nat n)) n.
Proof.
  intros Hn. unfold match_, match_reverse.
  rewrite match_range_small by exact Hn.
  rewrite match_reverse_loop_as_match_loop. reflexivity.
Qed.

(** A scan that meets a symbol above 3 at position [j]: whatever range [r]
    the symbols scanned before it left, the result is [(1,0)] if [r] is not
    empty and [r] itself otherwise. *)
Lemma match_loop_ambiguous fmi pattern j b in_range :
  to_uint8 (pattern j) > 3 ->
  let r := match_loop fmi (drop_pattern pattern (S j)) b in_range in
  match_loop fmi pattern (S j + b) in_range =
  if x r <=? y r then make_vector 1 0 else r.
Proof.
  intros Hc r. rewrite match_loop_split. fold r. simpl.
  assert (Hgt : (to_uint8 (pattern j) >? 3) = true) by (apply Z.gtb_lt; lia).
  rewrite Hgt. reflexivity.
Qed.

Lemma match_reverse_loop_ambiguous fmi pattern j b in_range :
  to_uint8 (pattern j) > 3 ->
  let r := match_reverse_loop fmi pattern j 0 in_range in
  match_reverse_loop fmi pattern (j + S b) 0 in_range =
  if x r <=? y r then make_vector 1 0 else r.
Proof.
  intros Hc r. rewrite match_reverse_loop_split. fold r. simpl.
  assert (Hgt : (to_uint8 (pattern j) >? 3) = true) by (apply Z.gtb_lt; lia).
  rewrite Hgt. reflexivity.
Qed.

Lemma guarded_result_empty range :
  is_empty (if x range <=? y range then make_vector 1 0 else range).
Proof.
  destruct (x range <=? y range) eqn:Hguard.
  - apply canonical_empty.
  - apply guard_empty, Hguard.
Qed.

(** C1, amended: a pattern whose symbol at position [j], as the loops
    store it in a [uint8], is above 3 makes [match] (for at most [2^31]
    symbols) and [match_reverse] return an empty range, [x > y]: the
    canonical [(1,0)] when the symbols scanned before position [j] leave a
    non-empty range, and otherwise the already-empty range they leave (the
    starting range itself if that is empty). *)
Theorem ambiguous_symbol_empty_range fmi pattern (n : Z) (j : nat) in_range :
  to_uint8 (pattern j) > 3 -> Z.of_nat j < n ->
  (n <= 2 ^ 31 ->
   let r := match_range fmi (drop_pattern pattern (S j))
              (n - 1 - Z.of_nat j) in_range in
   match_range fmi pattern n in_range
     = (if x r <=? y r then make_vector 1 0 else r)
   /\ is_empty (match_range fmi pattern n in_range))
  /\ (let r := match_reverse fmi pattern (Z.of_nat j) in
      match_reverse fmi pattern n
        = (if x r <=? y r then make_vector 1 0 else r)
      /\ is_empty (match_reverse fmi pattern n)).
Proof.
  intros Hc Hj. split.
  - intros Hn r.
    assert (Heq : match_range fmi pattern n in_range
                  = if x r <=? y r then make_vector 1 0 else r).
    { unfold r. rewrite !match_range_small by lia.
      replace (Z.to_nat n) with (S j + Z.to_nat (n - 1 - Z.of_nat j))%nat
        by lia.
      apply match_loop_ambiguous. exact Hc. }
    split; [exact Heq |]. rewrite Heq. apply guarded_result_empty.
  - intros r.
    assert (Heq : match_reverse fmi pattern n
                  = if x r <=? y r then make_vector 1 0 else r).
    { unfold r, match_reverse. rewrite Nat2Z.id.
      replace (Z.to_nat n) with (j + S (Z.to_nat (n - 1 - Z.of_nat j)))%nat
        by lia.
      apply match_reverse_loop_ambiguous. exact Hc. }
    split; [exact Heq |]. rewrite Heq. apply guarded_result_empty.
Qed.

(** C7: [match] started on an empty range returns an empty range; and in
    any search, if the range is empty after the last [b] symbols of the
    pattern have been scanned, the remaining [a] symbols leave it as it
    is. *)
Theorem match_preserves_empty fmi pattern :
  (forall n in_range,
     is_empty in_range -> is_empty (match_range fmi pattern n in_range))
  /\ (forall a b in_range,
        is_empty (match_loop fmi (drop_pattern pattern a) b in_range) ->
        match_loop fmi pattern (a + b) in_range
        = match_loop fmi (drop_pattern pattern a) b in_range).
Proof.
  split.
  - intros n in_range Hr. rewrite match_range_empty; exact Hr.
  - intros a b in_range Hr. rewrite match_loop_split.
    apply match_loop_empty, Hr.
Qed.

(** C10: [match] returns [in_range] itself when [pattern_len] is 0 or
    [in_range] is empty, also for a pattern that holds a symbol above 3;
    and the overload without a range returns [(0, L)] for [pattern_len]
    0. *)
Theorem match_returns_in_range fmi pattern :
  (forall n in_range,
     n = 0 \/ is_empty in_range ->
     match_range fmi pattern n in_range = in_range)
  /\ (forall n (j : nat) in_range,
        pattern j > 3 -> Z.of_nat j < n -> is_empty in_range ->
        match_range fmi pattern n in_range = in_range)
  /\ match_ fmi pattern 0 = make_vector 0 (length fmi).
Proof.
  split; [| split].
  - intros n in_range [-> | Hr].
    + apply match_range_zero.
    + apply match_range_empty, Hr.
  - intros n j in_range _ _ Hr. apply match_range_empty, Hr.
  - apply match_range_zero.
Qed.

End MatchProperties.

(** C1, as stated, fails: on the index of ACGTACGT the pattern C C N
    scanned forward, and N C C scanned backward, run out of candidates at
    the second C and stop at [(3,2)] before the N is read; and from the
    empty starting range [(5,2)] the pattern N is never read at all. *)
Lemma ambiguous_symbol_counterexample :
  (to_uint8 (pattern_of_list [1; 1; 4] 2%nat) > 3
   /\ match_reverse acgt_index (pattern_of_list [1; 1; 4]) 3
      = make_vector 3 2)
  /\ (to_uint8 (pattern_of_list [4; 1; 1] 0%nat) > 3
      /\ match_ acgt_index (pattern_of_list [4; 1; 1]) 3 = make_vector 3 2)
  /\ (to_uint8 (pattern_of_list [4] 0%nat) > 3
      /\ match_range acgt_index (pattern_of_list [4]) 1 (make_vector 5 2)
         = make_vector 5 2)
  /\ make_vector 3 2 <> make_vector 1 0
  /\ make_vector 5 2 <> make_vector 1 0.
Proof.
  repeat split; try reflexivity; discriminate.
Qed.

Lemma ambiguous_symbol_empty_range_witness :
  (match_range acgt_index pattern_TGNA 4 (make_vector 0 8)
     = (if x (match_range acgt_index (drop_pattern pattern_TGNA 3)
                (4 - 1 - 2) (make_vector 0 8))
           <=? y (match_range acgt_index (drop_pattern pattern_TGNA 3)
                    (4 - 1 - 2) (make_vector 0 8))
        then make_vector 1 0
        else match_range acgt_index (drop_pattern pattern_TGNA 3)
               (4 - 1 - 2) (make_vector 0 8))
   /\ is_empty (match_range acgt_index pattern_TGNA 4 (make_vector 0 8)))
  /\ (match_reverse acgt_index pattern_TGNA 4
        = (if x (match_reverse acgt_index pattern_TGNA 2)
              <=? y (match_reverse acgt_index pattern_TGNA 2)
           then make_vector 1 0
           else match_reverse acgt_index pattern_TGNA 2)
      /\ is_empty (match_reverse acgt_index pattern_TGNA 4)).
Proof.
  destruct (ambiguous_symbol_empty_range acgt_index pattern_TGNA 4 2
              (make_vector 0 8))
    as [Hmatch Hreverse].
  - reflexivity.
  - reflexivity.
  - split.
    + apply Hmatch. lia.
    + apply Hreverse.
Defined.

Lemma match_preserves_empty_witness :
  is_empty (match_range acgt_index (pattern_of_list [0; 1]) 2
              (make_vector 5 2))
  /\ match_loop acgt_index (pattern_of_list [2; 1; 1]) (1 + 2)
       (make_vector 0 8)
     = match_loop acgt_index (drop_pattern (pattern_of_list [2; 1; 1]) 1) 2
         (make_vector 0 8).
Proof.
  destruct (match_preserves_empty acgt_index (pattern_of_list [0; 1]))
    as [Hstart _].
  destruct (match_preserves_empty acgt_index (pattern_of_list [2; 1; 1]))
    as [_ Hlater].
  split.
  - apply Hstart. reflexivity.
  - apply Hlater. reflexivity.
Defined.

Lemma match_returns_in_range_witness :
  match_range acgt_index (pattern_of_list [4; 0]) 0 (make_vector 3 6)
    = make_vector 3 6
  /\ match_range acgt_index (pattern_of_list [4; 0]) 2 (make_vector 5 2)
     = make_vector 5 2.
Proof.
  destruct (match_returns_in_range acgt_index (pattern_of_list [4; 0]))
    as [Hany [Hambiguous _]].
  split.
  - apply Hany. left. reflexivity.
  - apply (Hambiguous 2 0%nat); reflexivity.
Defined.

(** C5 at a pattern of [2^31 + 1] symbols, all of them N: [match_reverse]
    reads the first symbol and answers [(1,0)]; [match] on the reversed
    pattern starts its [int32] counter at [-2^31], reads nothing and
    answers the full range. *)
Lemma match_reverse_long_pattern :
  match_reverse acgt_index pattern_all_N (2 ^ 31 + 1) = make_vector 1 0
  /\ match_ acgt_index
       (reverse_pattern pattern_all_N (Z.to_nat (2 ^ 31 + 1))) (2 ^ 31 + 1)
     = make_vector 0 8
  /\ match_reverse acgt_index pattern_all_N (2 ^ 31 + 1)
     <> match_ acgt_index
          (reverse_pattern pattern_all_N (Z.to_nat (2 ^ 31 + 1)))
          (2 ^ 31 + 1).
Proof.
  assert (Hrev : match_reverse acgt_index pattern_all_N (2 ^ 31 + 1)
                 = make_vector 1 0).
  { unfold match_reverse.
    replace (Z.to_nat (2 ^ 31 + 1)) with (0 + S (Z.to_nat (2 ^ 31)))%nat
      by lia.
    rewrite match_reverse_loop_ambiguous by reflexivity.
    reflexivity. }
  assert (Hmatch : match_ acgt_index
                     (reverse_pattern pattern_all_N (Z.to_nat (2 ^ 31 + 1)))
                     (2 ^ 31 + 1)
                   = make_vector 0 8).
  { unfold match_. rewrite match_range_large by lia. reflexivity. }
  split; [exact Hrev | split; [exact Hmatch |]].
  rewrite Hrev, Hmatch. discriminate.
Qed.

(** ** Coordinate recovery *)

Section LocateProperties.

Context {TRankDictionary TSuffixArray : Type}
  `{RankDictionary TRankDictionary} `{SuffixArray TSuffixArray}.

Variable fmi : fm_index TRankDictionary TSuffixArray.

Lemma fetch_of_has j :
  has_iff_fetch fmi -> has (sa fmi) j = true ->
  exists v, fetch (sa fmi) j = Some v.
Proof. intros Hsa Hj. apply Hsa, Hj. Qed.

Lemma fetch_of_not_has j :
  has_iff_fetch fmi -> has (sa fmi) j = false -> fetch (sa fmi) j = None.
Proof.
  intros Hsa Hj. destruct (fetch (sa fmi) j) as [v |] eqn:E; [| reflexivity].
  assert (Htrue : has (sa fmi) j = true) by (apply Hsa; exists v; exact E).
  congruence.
Qed.

(** The two loops run in lockstep, at every fuel and from every state. *)
Lemma locate_loop_split fuel j t :
  has_iff_fetch fmi ->
  locate_loop fuel fmi j t =
  match locate_ssa_iterator_loop fuel fmi j t with
  | Some it => lookup_ssa_iterator fmi it
  | None => None
  end.
Proof.
  intros Hsa. revert j t. induction fuel as [| fuel IH]; intros j t; simpl.
  - reflexivity.
  - destruct (has (sa fmi) j) eqn:Ehas.
    + destruct (fetch_of_has j Hsa Ehas) as [v Hv].
      unfold lookup_ssa_iterator. simpl. rewrite Hv. reflexivity.
    + rewrite (fetch_of_not_has j Hsa Ehas). apply IH.
Qed.

(** A walk that meets a sampled row within [n] steps ends the search loop
    with any fuel above [n], at a sampled row. *)
Lemma locate_ssa_iterator_loop_reaches n j t :
  has (sa fmi) (walk fmi n j) = true ->
  exists it,
    has (sa fmi) (x it) = true
    /\ forall fuel, (n < fuel)%nat ->
         locate_ssa_iterator_loop fuel fmi j t = Some it.
Proof.
  revert j t. induction n as [| n IH]; intros j t Hn.
  - simpl in Hn. exists (make_vector j t). split; [exact Hn |].
    intros [| fuel] Hfuel; [lia |]. simpl. rewrite Hn. reflexivity.
  - destruct (has (sa fmi) j) eqn:Ehas.
    + exists (make_vector j t). split; [exact Ehas |].
      intros [| fuel] Hfuel; [lia |]. simpl. rewrite Ehas. reflexivity.
    + simpl in Hn. destruct (IH _ (u32 (t + 1)) Hn) as [it [Hit Hrun]].
      exists it. split; [exact Hit |].
      intros [| fuel] Hfuel; [lia |]. simpl. rewrite Ehas. apply Hrun. lia.
Qed.

(** C4: when [has] holds exactly where [fetch] succeeds, [locate] is
    [lookup_ssa_iterator] after [locate_ssa_iterator] at every row and
    every fuel; and when the walk from row [i] meets a sampled row after
    [n] steps, both return, with any fuel above [n], the same
    coordinate. *)
Theorem locate_split_pipeline :
  has_iff_fetch fmi ->
  (forall fuel i,
     locate fuel fmi i =
     match locate_ssa_iterator fuel fmi i with
     | Some it => lookup_ssa_iterator fmi it
     | None => None
     end)
  /\ (forall i n,
        has (sa fmi) (walk fmi n i) = true ->
        exists it v,
          forall fuel, (n < fuel)%nat ->
            locate_ssa_iterator fuel fmi i = Some it
            /\ lookup_ssa_iterator fmi it = Some v
            /\ locate fuel fmi i = Some v).
Proof.
  intros Hsa. split.
  - intros fuel i. apply locate_loop_split, Hsa.
  - intros i n Hn.
    destruct (locate_ssa_iterator_loop_reaches n i 0 Hn) as [it [Hit Hrun]].
    destruct (fetch_of_has _ Hsa Hit) as [s Hs].
    exists it, (u32 (s + y it)).
    assert (Hlookup : lookup_ssa_iterator fmi it = Some (u32 (s + y it))).
    { unfold lookup_ssa_iterator. rewrite Hs. reflexivity. }
    intros fuel Hfuel. split; [| split].
    + apply Hrun, Hfuel.
    + exact Hlookup.
    + unfold locate. rewrite locate_loop_split by exact Hsa.
      rewrite (Hrun fuel Hfuel). exact Hlookup.
Qed.

(** C6: on a well-formed index ([0 <= primary <= L < 2^32]) and for a row
    [i <= L], [basic_inv_psi] returns 0 exactly at [i = primary]. *)
Theorem basic_inv_psi_zero_iff (i : index_type) :
  0 <= primary fmi <= length fmi -> length fmi < 2 ^ 32 ->
  lf_well_formed fmi ->
  0 <= i <= length fmi ->
  basic_inv_psi fmi i = 0 <-> i = primary fmi.
Proof.
  intros Hp HL Hwf Hi. unfold basic_inv_psi.
  destruct (i =? primary fmi) eqn:Eprimary.
  - apply Z.eqb_eq in Eprimary. split; intros _; [exact Eprimary | reflexivity].
  - apply Z.eqb_neq in Eprimary.
    split; [| intros Heq; contradiction].
    intros Hzero. exfalso.
    assert (Hk : exists k, 0 <= k < length fmi
               /\ (if i <? primary fmi then i else u32 (i - 1)) = k).
    { destruct (i <? primary fmi) eqn:Elt.
      - apply Z.ltb_lt in Elt. exists i. split; [lia | reflexivity].
      - apply Z.ltb_ge in Elt. exists (i - 1). split; [lia |].
        apply u32_small. lia. }
    destruct Hk as [k [Hk Hkeq]]. rewrite Hkeq in Hzero.
    destruct (Hwf k Hk) as [Hrank [HL2 Hrow]].
    rewrite u32_small in Hzero by lia. lia.
Qed.

End LocateProperties.

Lemma locate_split_pipeline_witness :
  (forall fuel i,
     locate fuel acgt_index i =
     match locate_ssa_iterator fuel acgt_index i with
     | Some it => lookup_ssa_iterator acgt_index it
     | None => None
     end)
  /\ exists it v,
       forall fuel, (2 < fuel)%nat ->
         locate_ssa_iterator fuel acgt_index 3 = Some it
         /\ lookup_ssa_iterator acgt_index it = Some v
         /\ locate fuel acgt_index 3 = Some v.
Proof.
  destruct (locate_split_pipeline acgt_index) as [Hsame Hreach].
  - intros j. apply pairs_has_fetch.
  - split.
    + exact Hsame.
    + apply (Hreach 3 2%nat). reflexivity.
Defined.

Lemma acgt_lf_well_formed : lf_well_formed acgt_index.
Proof.
  intros k Hk. simpl in Hk.
  assert (Hcases : k = 0 \/ k = 1 \/ k = 2 \/ k = 3
                   \/ k = 4 \/ k = 5 \/ k = 6 \/ k = 7) by lia.
  destruct Hcases as [-> | [-> | [-> | [-> | [-> | [-> | [-> | ->]]]]]]];
    vm_compute; repeat split; discriminate.
Qed.

Lemma basic_inv_psi_zero_iff_witness :
  basic_inv_psi acgt_index 2 = 0 <-> 2 = primary acgt_index.
Proof.
  apply (basic_inv_psi_zero_iff acgt_index 2).
  - simpl. lia.
  - simpl. lia.
  - exact acgt_lf_well_formed.
  - simpl. lia.
Defined.

(** * Further properties of the query functions *)

Lemma u32_add_l (a b : Z) : u32 (u32 a + b) = u32 (a + b).
Proof. unfold u32. apply Zplus_mod_idemp_l. Qed.

Lemma u32_add_r (a b : Z) : u32 (a + u32 b) = u32 (a + b).
Proof. unfold u32. apply Zplus_mod_idemp_r. Qed.

Lemma u32_sub_l (a b : Z) : u32 (u32 a - b) = u32 (a - b).
Proof. unfold u32. apply Zminus_mod_idemp_l. Qed.

Lemma u32_sub_r (a b : Z) : u32 (a - u32 b) = u32 (a - b).
Proof. unfold u32. apply Zminus_mod_idemp_r. Qed.

Lemma u32_bounds (z : Z) : 0 <= u32 z < 2 ^ 32.
Proof. unfold u32. apply Z.mod_pos_bound. reflexivity. Qed.

(** ** The range overload of [rank4] *)

Section Rank4RangeProperties.

Context {TRankDictionary TSuffixArray : Type}
  `{RankDictionary TRankDictionary} `{RankDictionaryRange4 TRankDictionary}.

Variable fmi : fm_index TRankDictionary TSuffixArray.

(** The dictionary answers a range query with its answers at both ends. *)
Hypothesis dict_rank4_range_ends : forall r,
  dict_rank4_range (rank_dict fmi) r =
  (dict_rank4 (rank_dict fmi) (x r), dict_rank4 (rank_dict fmi) (y r)).

Lemma rank4_inner k :
  k <> index_none -> k <> length fmi ->
  rank4 fmi k = dict_rank4 (rank_dict fmi) (skip_primary fmi k).
Proof.
  intros H1 H2. unfold rank4. apply Z.eqb_neq in H1, H2. rewrite H1, H2.
  reflexivity.
Qed.

Lemma rank4_none : rank4 fmi index_none = make_vector4 0 0 0 0.
Proof. unfold rank4. rewrite Z.eqb_refl. reflexivity. Qed.

Lemma rank4_at_length :
  length fmi <> index_none ->
  rank4 fmi (length fmi) =
  make_vector4 (count fmi 0) (count fmi 1) (count fmi 2) (count fmi 3).
Proof.
  intros HL. unfold rank4. apply Z.eqb_neq in HL. rewrite HL, Z.eqb_refl.
  reflexivity.
Qed.

(** X1: the two outputs of the range overload of [rank4] are [rank4] at
    the two ends, for a range with [y] other than [index_type(-1)] and [x]
    other than [L] (a point range and a left-open range included). *)
Theorem rank4_range_ends (range : range_type) :
  (x range = y range \/ x range = index_none
   \/ (y range <> index_none /\ x range <> length fmi)) ->
  rank4_range fmi range = (rank4 fmi (x range), rank4 fmi (y range)).
Proof.
  intros Hcases. unfold rank4_range.
  destruct (x range =? y range) eqn:Exy.
  - apply Z.eqb_eq in Exy. rewrite <- Exy. reflexivity.
  - apply Z.eqb_neq in Exy. destruct (x range =? index_none) eqn:Ex.
    + apply Z.eqb_eq in Ex. rewrite Ex, rank4_none. reflexivity.
    + apply Z.eqb_neq in Ex.
      destruct Hcases as [Hc | [Hc | [Hy HxL]]]; [contradiction.. |].
      destruct (y range =? length fmi) eqn:Ey.
      * apply Z.eqb_eq in Ey. rewrite Ey, rank4_at_length by congruence.
        reflexivity.
      * apply Z.eqb_neq in Ey. rewrite dict_rank4_range_ends. simpl.
        rewrite !rank4_inner by assumption. reflexivity.
Qed.

(** The dictionary's three queries agree with its [rank]. *)
Hypothesis dict_rank4_ranks : forall q,
  dict_rank4 (rank_dict fmi) q =
  make_vector4 (dict_rank (rank_dict fmi) q 0) (dict_rank (rank_dict fmi) q 1)
               (dict_rank (rank_dict fmi) q 2) (dict_rank (rank_dict fmi) q 3).

Hypothesis dict_rank_range_ends : forall r c,
  dict_rank_range (rank_dict fmi) r c =
  make_vector (dict_rank (rank_dict fmi) (x r) c)
              (dict_rank (rank_dict fmi) (y r) c).

Lemma rank4_as_ranks k :
  rank4 fmi k =
  make_vector4 (rank fmi k 0) (rank fmi k 1) (rank fmi k 2) (rank fmi k 3).
Proof.
  unfold rank4, rank. destruct (k =? index_none); [reflexivity |].
  destruct (k =? length fmi); [reflexivity |]. apply dict_rank4_ranks.
Qed.

(** X2: on every range, also one outside the rows, the range overload of
    [rank4] returns the four answers of the range overload of [rank]. *)
Theorem rank4_range_as_rank_ranges (range : range_type) :
  rank4_range fmi range =
  (make_vector4 (x (rank_range fmi range 0)) (x (rank_range fmi range 1))
                (x (rank_range fmi range 2)) (x (rank_range fmi range 3)),
   make_vector4 (y (rank_range fmi range 0)) (y (rank_range fmi range 1))
                (y (rank_range fmi range 2)) (y (rank_range fmi range 3))).
Proof.
  unfold rank4_range, rank_range.
  destruct (x range =? y range).
  - simpl. rewrite rank4_as_ranks. reflexivity.
  - destruct (x range =? index_none).
    + simpl. rewrite rank4_as_ranks. reflexivity.
    + destruct (y range =? length fmi).
      * simpl. rewrite rank4_as_ranks. reflexivity.
      * rewrite dict_rank4_range_ends, !dict_rank_range_ends. simpl.
        rewrite !dict_rank4_ranks. reflexivity.
Qed.

End Rank4RangeProperties.

Lemma rank4_range_ends_witness :
  rank4_range acgt_index (make_vector 3 6)
  = (rank4 acgt_index 3, rank4 acgt_index 6).
Proof.
  apply (rank4_range_ends acgt_index).
  - intros r. reflexivity.
  - right. right. simpl. unfold index_none. lia.
Defined.

Lemma rank4_range_as_rank_ranges_witness :
  rank4_range acgt_index (make_vector 3 6)
  = (make_vector4 (x (rank_range acgt_index (make_vector 3 6) 0))
                  (x (rank_range acgt_index (make_vector 3 6) 1))
                  (x (rank_range acgt_index (make_vector 3 6) 2))
                  (x (rank_range acgt_index (make_vector 3 6) 3)),
     make_vector4 (y (rank_range acgt_index (make_vector 3 6) 0))
                  (y (rank_range acgt_index (make_vector 3 6) 1))
                  (y (rank_range acgt_index (make_vector 3 6) 2))
                  (y (rank_range acgt_index (make_vector 3 6) 3))).
Proof.
  apply (rank4_range_as_rank_ranges acgt_index).
  - intros r. reflexivity.
  - intros q. reflexivity.
  - intros r c. reflexivity.
Defined.

(** ** The walk of [inv_psi] and [locate] *)

Section WalkProperties.

Context {TRankDictionary TSuffixArray : Type}
  `{RankDictionary TRankDictionary} `{SuffixArray TSuffixArray}.

Variable fmi : fm_index TRankDictionary TSuffixArray.

Lemma locate_loop_as_inv_psi_loop fuel j t :
  locate_loop fuel fmi j t =
  match inv_psi_loop fuel fmi j t with
  | Some it => lookup_ssa_iterator fmi it
  | None => None
  end.
Proof.
  revert j t. induction fuel as [| fuel IH]; intros j t; simpl.
  - reflexivity.
  - destruct (fetch (sa fmi) j) as [suffix |] eqn:Efetch.
    + unfold lookup_ssa_iterator. simpl. rewrite Efetch. reflexivity.
    + apply IH.
Qed.

(** X3: [locate] is [lookup_ssa_iterator] applied to the pair [inv_psi]
    returns, with the same fuel, whatever the suffix array samples. *)
Theorem locate_is_lookup_after_inv_psi fuel i :
  locate fuel fmi i =
  match inv_psi fuel fmi i with
  | Some it => lookup_ssa_iterator fmi it
  | None => None
  end.
Proof. apply locate_loop_as_inv_psi_loop. Qed.

Lemma inv_psi_loop_as_locate_ssa_iterator_loop fuel j t :
  has_iff_fetch fmi ->
  inv_psi_loop fuel fmi j t = locate_ssa_iterator_loop fuel fmi j t.
Proof.
  intros Hsa. revert j t. induction fuel as [| fuel IH]; intros j t; simpl.
  - reflexivity.
  - destruct (has (sa fmi) j) eqn:Ehas.
    + destruct (proj1 (Hsa j) Ehas) as [v Hv]. rewrite Hv. reflexivity.
    + destruct (fetch (sa fmi) j) as [v |] eqn:Efetch.
      * assert (Htrue : has (sa fmi) j = true)
          by (apply Hsa; exists v; exact Efetch).
        congruence.
      * apply IH.
Qed.

(** X4: when [has] holds exactly where [fetch] succeeds, [inv_psi] and
    [locate_ssa_iterator] return the same pair. *)
Theorem inv_psi_is_locate_ssa_iterator fuel i :
  has_iff_fetch fmi ->
  inv_psi fuel fmi i = locate_ssa_iterator fuel fmi i.
Proof. intros Hsa. apply inv_psi_loop_as_locate_ssa_iterator_loop, Hsa. Qed.

Lemma inv_psi_loop_first_sample n : forall j t s fuel,
  0 <= t < 2 ^ 32 ->
  (forall m, (m < n)%nat -> fetch (sa fmi) (walk fmi m j) = None) ->
  fetch (sa fmi) (walk fmi n j) = Some s ->
  (n < fuel)%nat ->
  inv_psi_loop fuel fmi j t
  = Some (make_vector (walk fmi n j) (u32 (t + Z.of_nat n))).
Proof.
  induction n as [| n IH]; intros j t s fuel Ht Hbefore Hn Hfuel;
    (destruct fuel as [| fuel]; [lia |]); simpl in *.
  - rewrite Hn, Z.add_0_r, u32_small by exact Ht. reflexivity.
  - pose proof (Hbefore O ltac:(lia)) as Hfirst. simpl in Hfirst.
    rewrite Hfirst.
    rewrite (IH (lf_step fmi j) (u32 (t + 1)) s fuel).
    + rewrite u32_add_l. do 3 f_equal. lia.
    + apply u32_bounds.
    + intros m Hm. apply (Hbefore (S m)). lia.
    + exact Hn.
    + lia.
Qed.

(** X5: when the rows [walk 0 .. walk (n-1)] from [i] are not sampled and
    row [walk n] is, with coordinate [s], then with any fuel above [n]
    [inv_psi] returns that row with [n] steps, and [locate] returns
    [s + n], both in [uint32]. *)
Theorem inv_psi_first_sample (i : index_type) (n : nat) (s : index_type)
  (fuel : nat) :
  (forall m, (m < n)%nat -> fetch (sa fmi) (walk fmi m i) = None) ->
  fetch (sa fmi) (walk fmi n i) = Some s ->
  (n < fuel)%nat ->
  inv_psi fuel fmi i = Some (make_vector (walk fmi n i) (u32 (Z.of_nat n)))
  /\ locate fuel fmi i = Some (u32 (s + Z.of_nat n)).
Proof.
  intros Hbefore Hn Hfuel.
  assert (Hinv : inv_psi_loop fuel fmi i 0
                 = Some (make_vector (walk fmi n i) (u32 (Z.of_nat n)))).
  { apply (inv_psi_loop_first_sample n i 0 s fuel); try assumption. lia. }
  split; [exact Hinv |].
  unfold locate. rewrite locate_loop_as_inv_psi_loop, Hinv.
  unfold lookup_ssa_iterator. simpl. rewrite Hn, u32_add_r. reflexivity.
Qed.

Lemma inv_psi_loop_sound fuel : forall j t it,
  0 <= t < 2 ^ 32 ->
  inv_psi_loop fuel fmi j t = Some it ->
  exists n,
    (n < fuel)%nat
    /\ x it = walk fmi n j /\ y it = u32 (t + Z.of_nat n)
    /\ (exists s, fetch (sa fmi) (x it) = Some s)
    /\ forall m, (m < n)%nat -> fetch (sa fmi) (walk fmi m j) = None.
Proof.
  induction fuel as [| fuel IH]; intros j t it Ht Hrun; simpl in Hrun.
  - discriminate.
  - destruct (fetch (sa fmi) j) as [s |] eqn:Efetch.
    + injection Hrun as <-. exists O. simpl.
      rewrite Z.add_0_r, u32_small by exact Ht.
      repeat split; try lia. exists s. exact Efetch.
    + destruct (IH _ _ _ (u32_bounds (t + 1)) Hrun)
        as [n [Hn [Hx [Hy [Hs Hbefore]]]]].
      exists (S n). simpl. repeat split.
      * lia.
      * exact Hx.
      * rewrite Hy, u32_add_l. f_equal. lia.
      * exact Hs.
      * intros [| m] Hm; simpl; [exact Efetch | apply Hbefore; lia].
Qed.

(** X6: a pair [(j, t)] returned by [inv_psi] is the first sampled row of
    the walk from [i]: row [j] is reached after [t] steps (counted in
    [uint32]), [fetch] succeeds on it, and it fails on every row walked
    before. *)
Theorem inv_psi_sound (fuel : nat) (i : index_type) (it : range_type) :
  inv_psi fuel fmi i = Some it ->
  exists n,
    (n < fuel)%nat
    /\ x it = walk fmi n i /\ y it = u32 (Z.of_nat n)
    /\ (exists s, fetch (sa fmi) (x it) = Some s)
    /\ forall m, (m < n)%nat -> fetch (sa fmi) (walk fmi m i) = None.
Proof.
  intros Hrun. apply (inv_psi_loop_sound fuel i 0 it); [lia | exact Hrun].
Qed.

(** X7: on every row other than [index_type(-1)] and [L], the loop body
    of [inv_psi], [locate] and [locate_ssa_iterator] computes
    [basic_inv_psi]; on row [L] it does when [count(c)], which it uses
    there, is the dictionary's rank of [c = bwt[L-1]] at [L-1]. *)
Theorem lf_step_is_basic_inv_psi (i : index_type) :
  i <> index_none ->
  (i = length fmi ->
   primary fmi <= length fmi
   /\ count fmi (bwt fmi (u32 (i - 1)))
      = dict_rank (rank_dict fmi) (u32 (i - 1)) (bwt fmi (u32 (i - 1)))) ->
  lf_step fmi i = basic_inv_psi fmi i.
Proof.
  intros Hnone Hlast. unfold lf_step, basic_inv_psi.
  destruct (i =? primary fmi) eqn:Eprimary; simpl; [reflexivity |].
  apply Z.eqb_neq in Eprimary.
  destruct (Z.eq_dec i (length fmi)) as [HL | HL].
  - destruct (Hlast HL) as [Hp Hcount].
    assert (Elt : (i <? primary fmi) = false) by (apply Z.ltb_ge; lia).
    rewrite Elt. unfold rank. apply Z.eqb_neq in Hnone. rewrite Hnone.
    rewrite HL at 2. rewrite Z.eqb_refl. rewrite Hcount. reflexivity.
  - rewrite rank_inner by assumption. unfold skip_primary.
    rewrite Z.geb_leb. destruct (i <? primary fmi) eqn:Elt.
    + apply Z.ltb_lt in Elt.
      assert (Ele : (primary fmi <=? i) = false) by (apply Z.leb_gt; lia).
      rewrite Ele. reflexivity.
    + apply Z.ltb_ge in Elt.
      assert (Ele : (primary fmi <=? i) = true) by (apply Z.leb_le; lia).
      rewrite Ele. reflexivity.
Qed.

End WalkProperties.

Lemma inv_psi_is_locate_ssa_iterator_witness :
  inv_psi 5 acgt_index 7 = locate_ssa_iterator 5 acgt_index 7.
Proof.
  apply (inv_psi_is_locate_ssa_iterator acgt_index).
  intros j. apply pairs_has_fetch.
Defined.

Lemma inv_psi_first_sample_witness :
  inv_psi 4 acgt_index 3
  = Some (make_vector (walk acgt_index 2 3) (u32 (Z.of_nat 2)))
  /\ locate 4 acgt_index 3 = Some (u32 (3 + Z.of_nat 2)).
Proof.
  apply (inv_psi_first_sample acgt_index 3 2 3 4).
  - intros [| [| m]] Hm; [reflexivity | reflexivity | lia].
  - reflexivity.
  - lia.
Defined.

Lemma inv_psi_sound_witness :
  exists n,
    (n < 5)%nat
    /\ x (make_vector 8 4) = walk acgt_index n 7
    /\ y (make_vector 8 4) = u32 (Z.of_nat n)
    /\ (exists s, fetch (sa acgt_index) (x (make_vector 8 4)) = Some s)
    /\ forall m, (m < n)%nat ->
         fetch (sa acgt_index) (walk acgt_index m 7) = None.
Proof. apply (inv_psi_sound acgt_index 5 7). reflexivity. Defined.

Lemma lf_step_is_basic_inv_psi_witness :
  lf_step acgt_index 8 = basic_inv_psi acgt_index 8.
Proof.
  apply (lf_step_is_basic_inv_psi acgt_index 8).
  - discriminate.
  - intros _. split; [simpl; lia | reflexivity].
Defined.

(** ** Searches that continue, mirror or bound one another *)

Section SearchProperties.

Context {TRankDictionary TSuffixArray : Type}
  `{RankDictionary TRankDictionary}.

Variable fmi : fm_index TRankDictionary TSuffixArray.

(** X8: a search can be continued: for a pattern of [a + b <= 2^31]
    symbols, [match] is [match] on its first [a] symbols started from the
    range [match] returns for its last [b] symbols. *)
Theorem match_range_continues (pattern : Iterator) (a b : Z)
  (in_range : range_type) :
  0 <= a -> 0 <= b -> a + b <= 2 ^ 31 ->
  match_range fmi pattern (a + b) in_range =
  match_range fmi pattern a
    (match_range fmi (drop_pattern pattern (Z.to_nat a)) b in_range).
Proof.
  intros Ha Hb Hab. rewrite !match_range_small by lia.
  rewrite Z2Nat.inj_add by lia. apply match_loop_split.
Qed.

Lemma reverse_pattern_twice (pattern : Iterator) (n i : nat) :
  (i < n)%nat -> reverse_pattern (reverse_pattern pattern n) n i = pattern i.
Proof. intros Hi. unfold reverse_pattern. f_equal. lia. Qed.

(** X9: for a pattern of at most [2^31] symbols, [match_reverse] is
    [match] on the reversed pattern and [match] is [match_reverse] on the
    reversed pattern. *)
Theorem match_reverse_mirrors_match (pattern : Iterator) (n : Z) :
  0 <= n <= 2 ^ 31 ->
  match_reverse fmi pattern n
  = match_ fmi (reverse_pattern pattern (Z.to_nat n)) n
  /\ match_ fmi pattern n
     = match_reverse fmi (reverse_pattern pattern (Z.to_nat n)) n.
Proof.
  intros Hn. split.
  - apply match_reverse_small, Hn.
  - rewrite match_reverse_small by exact Hn. unfold match_.
    rewrite !match_range_small by exact Hn.
    apply match_loop_ext. intros i Hi. symmetry.
    apply reverse_pattern_twice, Hi.
Qed.

Lemma match_reverse_loop_ext (p q : Iterator) (n : nat)
  (range : range_type) :
  (forall i, (i < n)%nat -> p i = q i) ->
  match_reverse_loop fmi p n 0 range = match_reverse_loop fmi q n 0 range.
Proof.
  intros Hpq. rewrite !match_reverse_loop_as_match_loop.
  apply match_loop_ext. intros j Hj. apply Hpq. lia.
Qed.

(** X10: [match] and [match_reverse] read the pattern only at positions
    below [pattern_len]: two patterns that agree there give the same
    ranges. *)
Theorem match_reads_below_pattern_len (p q : Iterator) (n : Z)
  (in_range : range_type) :
  0 <= n < 2 ^ 32 ->
  (forall i, Z.of_nat i < n -> p i = q i) ->
  match_range fmi p n in_range = match_range fmi q n in_range
  /\ match_reverse fmi p n = match_reverse fmi q n.
Proof.
  intros Hn Hpq. split.
  - destruct (Z_le_gt_dec n (2 ^ 31)) as [Hsmall | Hlarge].
    + rewrite !match_range_small by lia. apply match_loop_ext.
      intros i Hi. apply Hpq. lia.
    + rewrite !match_range_large by lia. reflexivity.
  - unfold match_reverse. apply match_reverse_loop_ext.
    intros i Hi. apply Hpq. lia.
Qed.

(** X11: the search for one symbol [0 <= c <= 3] from the full range is
    answered from the tables alone: it returns [L2(c) + 1] and
    [L2(c) + count(c)], without a dictionary query. *)
Theorem match_single_symbol (pattern : Iterator) :
  0 <= length fmi -> length fmi <> index_none -> 0 <= pattern O <= 3 ->
  match_ fmi pattern 1 =
  make_vector (u32 (L2 fmi (pattern O) + 1))
              (u32 (L2 fmi (pattern O) + count fmi (pattern O))).
Proof.
  intros HL Hnone Hc. unfold match_. rewrite match_range_small by lia.
  change (Z.to_nat 1) with 1%nat. cbn [match_loop x y].
  rewrite to_uint8_small by lia.
  assert (Hguard : (0 <=? length fmi) = true) by (apply Z.leb_le; exact HL).
  assert (Hsym : (pattern O >? 3) = false).
  { rewrite Z.gtb_ltb. apply Z.ltb_ge. lia. }
  rewrite Hguard, Hsym. unfold update_range. cbn [x y].
  change (u32 (0 - 1)) with index_none.
  rewrite rank_range_left_open by reflexivity. simpl.
  rewrite rank_length by exact Hnone. rewrite Z.add_0_r. reflexivity.
Qed.

(** Hypotheses under which the rows are kept. *)
Hypothesis length_bound : 0 <= length fmi < 2 ^ 32 - 1.

Hypothesis dict_rank_range_ends : forall r c,
  dict_rank_range (rank_dict fmi) r c =
  make_vector (dict_rank (rank_dict fmi) (x r) c)
              (dict_rank (rank_dict fmi) (y r) c).

Hypothesis dict_rank_bounded : forall k c,
  0 <= c <= 3 -> 0 <= dict_rank (rank_dict fmi) k c <= count fmi c.

Hypothesis tables_bounded : forall c,
  0 <= c <= 3 -> 0 <= L2 fmi c /\ L2 fmi c + count fmi c <= length fmi.

Lemma rank_bounded k c : 0 <= c <= 3 -> 0 <= rank fmi k c <= count fmi c.
Proof.
  intros Hc. pose proof (dict_rank_bounded 0 c Hc) as Hcount.
  unfold rank. destruct (k =? index_none); [lia |].
  destruct (k =? length fmi); [lia |]. apply dict_rank_bounded, Hc.
Qed.

Lemma rank_range_bounded range c :
  0 <= c <= 3 ->
  0 <= x (rank_range fmi range c) <= count fmi c
  /\ 0 <= y (rank_range fmi range c) <= count fmi c.
Proof.
  intros Hc. pose proof (rank_bounded (x range) c Hc) as Hx.
  pose proof (rank_bounded (y range) c Hc) as Hy.
  unfold rank_range. destruct (x range =? y range); simpl; [lia |].
  destruct (x range =? index_none); simpl; [lia |].
  destruct (y range =? length fmi); simpl; [lia |].
  rewrite dict_rank_range_ends. simpl.
  split; apply dict_rank_bounded, Hc.
Qed.

Lemma update_range_within_rows range c :
  0 <= c <= 3 -> within_rows fmi (update_range fmi range c).
Proof.
  intros Hc. destruct (tables_bounded c Hc) as [HL2 Hsum].
  unfold within_rows, update_range.
  set (c_rank := rank_range fmi (make_vector (u32 (x range - 1)) (y range)) c).
  destruct (rank_range_bounded
              (make_vector (u32 (x range - 1)) (y range)) c Hc) as [Hx Hy].
  fold c_rank in Hx, Hy. simpl.
  rewrite (u32_small (L2 fmi c + x c_rank + 1)) by lia.
  rewrite (u32_small (L2 fmi c + y c_rank)) by lia. lia.
Qed.

Lemma canonical_empty_within_rows : within_rows fmi (make_vector 1 0).
Proof. unfold within_rows. simpl. lia. Qed.

Lemma match_loop_within_rows (pattern : Iterator) (n : nat) :
  (forall i, 0 <= pattern i) ->
  forall range, within_rows fmi range ->
    within_rows fmi (match_loop fmi pattern n range).
Proof.
  intros Hsym. induction n as [| n IH]; intros range Hrange;
    cbn [match_loop].
  - exact Hrange.
  - destruct (x range <=? y range); [| exact Hrange].
    destruct (to_uint8 (pattern n) >? 3) eqn:Ec.
    + apply canonical_empty_within_rows.
    + apply IH, update_range_within_rows.
      rewrite Z.gtb_ltb in Ec. apply Z.ltb_ge in Ec.
      pose proof (to_uint8_bounds (pattern n)). lia.
Qed.

(** X12: on an index whose tables and dictionary count within the text
    ([L2(c) + count(c) <= L] and every dictionary rank of [c] at most
    [count(c)], for [c <= 3]), [match] started within the rows returns a
    range within the rows, and so does [match_reverse]: a non-empty result
    has [0 <= x <= y <= L]. *)
Theorem match_within_rows (pattern : Iterator) (n : Z)
  (in_range : range_type) :
  (forall i, 0 <= pattern i) ->
  within_rows fmi in_range ->
  within_rows fmi (match_range fmi pattern n in_range)
  /\ within_rows fmi (match_reverse fmi pattern n).
Proof.
  intros Hsym Hrange. split.
  - unfold match_range. apply match_loop_within_rows; assumption.
  - unfold match_reverse. rewrite match_reverse_loop_as_match_loop.
    apply match_loop_within_rows.
    + intros i. apply Hsym.
    + unfold within_rows. simpl. lia.
Qed.

Lemma update_range_absent range c :
  0 <= c <= 3 -> count fmi c = 0 -> is_empty (update_range fmi range c).
Proof.
  intros Hc Hcount. destruct (tables_bounded c Hc) as [HL2 Hsum].
  unfold is_empty, update_range.
  set (c_rank := rank_range fmi (make_vector (u32 (x range - 1)) (y range)) c).
  destruct (rank_range_bounded
              (make_vector (u32 (x range - 1)) (y range)) c Hc) as [Hx Hy].
  fold c_rank in Hx, Hy. simpl.
  rewrite (u32_small (L2 fmi c + x c_rank + 1)) by lia.
  rewrite (u32_small (L2 fmi c + y c_rank)) by lia. lia.
Qed.

Lemma match_loop_absent (pattern : Iterator) (n j : nat)
  (range : range_type) :
  (j < n)%nat -> 0 <= pattern j <= 3 -> count fmi (pattern j) = 0 ->
  is_empty (match_loop fmi pattern n range).
Proof.
  intros Hj Hc Hcount.
  replace n with (S j + (n - S j))%nat by lia.
  rewrite match_loop_split.
  set (r := match_loop fmi (drop_pattern pattern (S j)) (n - S j) range).
  cbn [match_loop]. rewrite to_uint8_small by lia.
  destruct (x r <=? y r) eqn:Hguard.
  - assert (Hsym : (pattern j >? 3) = false).
    { rewrite Z.gtb_ltb. apply Z.ltb_ge. lia. }
    rewrite Hsym, match_loop_empty; apply update_range_absent; assumption.
  - apply guard_empty, Hguard.
Qed.

(** X21: on such an index a pattern that holds a symbol [c <= 3] absent
    from the text ([count(c) = 0]) gives an empty range, from every
    starting range: with [match] for at most [2^31] symbols, and with
    [match_reverse]. *)
Theorem match_absent_symbol (pattern : Iterator) (n : Z) (j : nat)
  (in_range : range_type) :
  0 <= pattern j <= 3 -> count fmi (pattern j) = 0 -> Z.of_nat j < n ->
  (n <= 2 ^ 31 -> is_empty (match_range fmi pattern n in_range))
  /\ is_empty (match_reverse fmi pattern n).
Proof.
  intros Hc Hcount Hj. split.
  - intros Hn. rewrite match_range_small by lia.
    apply (match_loop_absent pattern (Z.to_nat n) j); [lia | assumption..].
  - unfold match_reverse. rewrite match_reverse_loop_as_match_loop.
    apply (match_loop_absent _ (Z.to_nat n) (Z.to_nat n - 1 - j)).
    + lia.
    + replace (0 + (Z.to_nat n - 1 - (Z.to_nat n - 1 - j)))%nat with j by lia.
      exact Hc.
    + replace (0 + (Z.to_nat n - 1 - (Z.to_nat n - 1 - j)))%nat with j by lia.
      exact Hcount.
Qed.

End SearchProperties.

Lemma match_range_continues_witness :
  match_range acgt_index (pattern_of_list [0; 1; 2; 3]) (2 + 2)
    (make_vector 0 8)
  = match_range acgt_index (pattern_of_list [0; 1; 2; 3]) 2
      (match_range acgt_index
         (drop_pattern (pattern_of_list [0; 1; 2; 3]) (Z.to_nat 2)) 2
         (make_vector 0 8)).
Proof. apply (match_range_continues acgt_index); lia. Defined.

Lemma match_reverse_mirrors_match_witness :
  match_reverse acgt_index (pattern_of_list [3; 2; 1; 0]) 4
  = match_ acgt_index
      (reverse_pattern (pattern_of_list [3; 2; 1; 0]) (Z.to_nat 4)) 4
  /\ match_ acgt_index (pattern_of_list [3; 2; 1; 0]) 4
     = match_reverse acgt_index
         (reverse_pattern (pattern_of_list [3; 2; 1; 0]) (Z.to_nat 4)) 4.
Proof. apply (match_reverse_mirrors_match acgt_index). lia. Defined.

Lemma match_reads_below_pattern_len_witness :
  match_range acgt_index (pattern_of_list [0; 1; 4]) 2 (make_vector 0 8)
  = match_range acgt_index (pattern_of_list [0; 1; 2; 3]) 2 (make_vector 0 8)
  /\ match_reverse acgt_index (pattern_of_list [0; 1; 4]) 2
     = match_reverse acgt_index (pattern_of_list [0; 1; 2; 3]) 2.
Proof.
  apply (match_reads_below_pattern_len acgt_index).
  - lia.
  - intros [| [| i]] Hi; [reflexivity | reflexivity | lia].
Defined.

Lemma match_single_symbol_witness :
  match_ acgt_index (pattern_of_list [2]) 1
  = make_vector (u32 (L2 acgt_index (pattern_of_list [2] O) + 1))
      (u32 (L2 acgt_index (pattern_of_list [2] O)
            + count acgt_index (pattern_of_list [2] O))).
Proof.
  apply (match_single_symbol acgt_index).
  - simpl. lia.
  - discriminate.
  - unfold pattern_of_list. simpl. lia.
Defined.

Lemma occ_upper (text : list uint8) (c : uint8) (k k' : Z) :
  Z.of_nat (List.length text) - 1 <= k' -> occ text k c <= occ text k' c.
Proof.
  revert k k'. induction text as [| s text IH]; intros k k' Hk'; simpl.
  - lia.
  - simpl List.length in Hk'.
    assert (E' : (k' <? 0) = false) by (apply Z.ltb_ge; lia). rewrite E'.
    destruct (k <? 0).
    + pose proof (occ_nonneg text (k' - 1) c). destruct (s =? c); lia.
    + specialize (IH (k - 1) (k' - 1)). lia.
Qed.

Lemma acgt_dict_rank_bounded (k : index_type) (c : uint8) :
  0 <= c <= 3 ->
  0 <= dict_rank (rank_dict acgt_index) k c <= count acgt_index c.
Proof.
  intros Hc. simpl dict_rank. simpl rank_dict. unfold plain_rank.
  assert (Htotal : occ acgt_bwt 7 c = count acgt_index c).
  { assert (Hcases : c = 0 \/ c = 1 \/ c = 2 \/ c = 3) by lia.
    destruct Hcases as [-> | [-> | [-> | ->]]]; reflexivity. }
  rewrite <- Htotal. pose proof (occ_nonneg acgt_bwt 7 c).
  destruct (k =? index_none); [lia |]. split.
  - apply occ_nonneg.
  - apply occ_upper. simpl. lia.
Qed.

Lemma acgt_tables_bounded (c : uint8) :
  0 <= c <= 3 ->
  0 <= L2 acgt_index c /\ L2 acgt_index c + count acgt_index c
                          <= length acgt_index.
Proof.
  intros Hc. assert (Hcases : c = 0 \/ c = 1 \/ c = 2 \/ c = 3) by lia.
  destruct Hcases as [-> | [-> | [-> | ->]]]; simpl; lia.
Qed.

Lemma pattern_of_list_nonneg (l : list uint8) :
  Forall (fun c => 0 <= c) l -> forall i, 0 <= pattern_of_list l i.
Proof.
  intros Hl i. unfold pattern_of_list.
  destruct (nth_in_or_default i l 0) as [Hin | ->]; [| lia].
  rewrite Forall_forall in Hl. apply Hl, Hin.
Qed.

Lemma aaaa_dict_rank_bounded (k : index_type) (c : uint8) :
  0 <= c <= 3 ->
  0 <= dict_rank (rank_dict aaaa_index) k c <= count aaaa_index c.
Proof.
  intros Hc. simpl dict_rank. simpl rank_dict. unfold plain_rank.
  assert (Htotal : occ aaaa_bwt 3 c = count aaaa_index c).
  { assert (Hcases : c = 0 \/ c = 1 \/ c = 2 \/ c = 3) by lia.
    destruct Hcases as [-> | [-> | [-> | ->]]]; reflexivity. }
  rewrite <- Htotal. pose proof (occ_nonneg aaaa_bwt 3 c).
  destruct (k =? index_none); [lia |]. split.
  - apply occ_nonneg.
  - apply occ_upper. simpl. lia.
Qed.

Lemma aaaa_tables_bounded (c : uint8) :
  0 <= c <= 3 ->
  0 <= L2 aaaa_index c /\ L2 aaaa_index c + count aaaa_index c
                          <= length aaaa_index.
Proof.
  intros Hc. assert (Hcases : c = 0 \/ c = 1 \/ c = 2 \/ c = 3) by lia.
  destruct Hcases as [-> | [-> | [-> | ->]]]; simpl; lia.
Qed.

Lemma match_absent_symbol_witness :
  is_empty (match_range aaaa_index (pattern_of_list [0; 1; 0]) 3
              (make_vector 0 4))
  /\ is_empty (match_reverse aaaa_index (pattern_of_list [0; 1; 0]) 3).
Proof.
  destruct (match_absent_symbol aaaa_index) with
    (pattern := pattern_of_list [0; 1; 0]) (n := 3) (j := 1%nat)
    (in_range := make_vector 0 4) as [Hmatch Hreverse].
  - simpl. lia.
  - intros r c. reflexivity.
  - exact aaaa_dict_rank_bounded.
  - exact aaaa_tables_bounded.
  - unfold pattern_of_list. simpl. lia.
  - reflexivity.
  - lia.
  - split; [apply Hmatch; lia | exact Hreverse].
Defined.

Lemma match_within_rows_witness :
  within_rows acgt_index
    (match_range acgt_index (pattern_of_list [0; 1; 2; 3]) 4
       (make_vector 0 8))
  /\ within_rows acgt_index
       (match_reverse acgt_index (pattern_of_list [0; 1; 2; 3]) 4).
Proof.
  apply (match_within_rows acgt_index).
  - simpl. lia.
  - intros r c. reflexivity.
  - exact acgt_dict_rank_bounded.
  - exact acgt_tables_bounded.
  - apply pattern_of_list_nonneg. repeat constructor; lia.
  - unfold within_rows. simpl. lia.
Defined.

(** ** Reads and their views *)

(** X13: [ReverseXform(n)] maps the positions [0 .. n-1] onto themselves,
    [i] to [n-1-i], and applied twice it gives back every [uint32]. *)
Theorem reverse_xform_involution (n i : index_type) :
  0 <= i < 2 ^ 32 ->
  reverse_apply (ReverseXform_of n) (reverse_apply (ReverseXform_of n) i) = i
  /\ (i < n <= 2 ^ 32 ->
      reverse_apply (ReverseXform_of n) i = n - 1 - i
      /\ 0 <= reverse_apply (ReverseXform_of n) i < n).
Proof.
  intros Hi. unfold reverse_apply, ReverseXform_of. simpl. split.
  - rewrite u32_sub_r.
    replace (u32 (n - 1) - (u32 (n - 1) - i)) with i by lia.
    apply u32_small, Hi.
  - intros Hn. rewrite u32_sub_l, u32_small by lia. lia.
Qed.

Lemma reverse_xform_involution_witness :
  reverse_apply (ReverseXform_of 8) (reverse_apply (ReverseXform_of 8) 3) = 3
  /\ reverse_apply (ReverseXform_of 8) 3 = 8 - 1 - 3
  /\ 0 <= reverse_apply (ReverseXform_of 8) 3 < 8.
Proof.
  destruct (reverse_xform_involution 8 3) as [Htwice Hin]; [lia |].
  split; [exact Htwice | apply Hin; lia].
Defined.

Lemma mirror_index (read : ReadStream) (pos : index_type) :
  u32 (first read + u32 (read_length read - 1 - pos))
  = u32 (last read - pos).
Proof.
  unfold read_length. rewrite u32_add_r.
  replace (first read + (u32 (1 + last read - first read) - 1 - pos))
    with (u32 (1 + last read - first read) + (first read - 1 - pos)) by lia.
  rewrite u32_add_l. f_equal. lia.
Qed.

Lemma read_at_reverse (read : ReadStream) (t : ReadType) (pos : index_type) :
  read_at (set_flags read REVERSE t) pos
  = read_at (set_flags read FORWARD t) (u32 (read_length read - 1 - pos)).
Proof. unfold read_at. simpl. rewrite mirror_index. reflexivity. Qed.

(** X14: position [pos] of a read seen in reverse is position
    [length - 1 - pos] of the read seen forward, for its symbols and for
    its qualities, in [uint32] arithmetic and so for every [pos]. *)
Theorem read_reverse_is_mirror (read : ReadStream) (t : ReadType)
  (pos : index_type) :
  read_at (set_flags read REVERSE t) pos
  = read_at (set_flags read FORWARD t) (u32 (read_length read - 1 - pos))
  /\ quality (set_flags read REVERSE t) pos
     = quality (set_flags read FORWARD t) (u32 (read_length read - 1 - pos)).
Proof.
  split; [apply read_at_reverse |].
  unfold quality. simpl. rewrite mirror_index. reflexivity.
Qed.

(** X15: a read built over the range [[x, y)] of a stream has [y - x]
    symbols whatever its flags, 0 for [x = y] (where [last] wraps to
    [x - 1]), and its forward view reads the stream from [x] on. *)
Theorem read_of_range (s q : index_type -> uint8) (range : range_type)
  (d : DirType) (t : ReadType) :
  0 <= x range <= y range -> y range < 2 ^ 32 ->
  read_length (set_flags (ReadStream_of s q range) d t) = y range - x range
  /\ forall pos, 0 <= pos < y range - x range ->
       read_at (set_flags (ReadStream_of s q range) FORWARD STANDARD) pos
       = s (x range + pos).
Proof.
  intros Hxy Hy. unfold read_length, read_at, set_flags, ReadStream_of.
  cbn [first last stream rev comp]. split.
  - replace (1 + u32 (y range - 1) - x range)
      with (u32 (y range - 1) + (1 - x range)) by lia.
    rewrite u32_add_l. rewrite u32_small by lia. lia.
  - intros pos Hpos. rewrite u32_small by lia. reflexivity.
Qed.

Lemma read_of_range_witness :
  read_length
    (set_flags (ReadStream_of (fun i => i mod 4) (fun _ => 30)
                  (make_vector 0 0)) REVERSE COMPLEMENT) = 0 - 0
  /\ forall pos, 0 <= pos < 0 - 0 ->
       read_at (set_flags (ReadStream_of (fun i => i mod 4) (fun _ => 30)
                             (make_vector 0 0)) FORWARD STANDARD) pos
       = (fun i => i mod 4) (0 + pos).
Proof.
  apply (read_of_range (fun i => i mod 4) (fun _ => 30) (make_vector 0 0));
    simpl; lia.
Defined.

Section ReadSearch.

Context {TRankDictionary TSuffixArray : Type}
  `{RankDictionary TRankDictionary}.

Variable fmi : fm_index TRankDictionary TSuffixArray.

(** X16: for a read of at most [2^31] symbols, [match] on its reverse
    view is [match_reverse] on its forward view. *)
Theorem match_reverse_view (read : ReadStream) (t : ReadType) :
  read_length read <= 2 ^ 31 ->
  match_ fmi (read_pattern (set_flags read REVERSE t)) (read_length read)
  = match_reverse fmi (read_pattern (set_flags read FORWARD t))
      (read_length read).
Proof.
  intros Hn. pose proof (u32_bounds (1 + last read - first read)) as Hlen.
  fold (read_length read) in Hlen.
  rewrite match_reverse_small by lia. unfold match_.
  rewrite !match_range_small by lia. apply match_loop_ext.
  intros i Hi. unfold read_pattern, reverse_pattern.
  rewrite read_at_reverse. f_equal. rewrite u32_small by lia. lia.
Qed.

Lemma match_range_ambiguous_empty (pattern : Iterator) (n : Z) (j : nat)
  (in_range : range_type) :
  to_uint8 (pattern j) > 3 -> Z.of_nat j < n -> n <= 2 ^ 31 ->
  is_empty (match_range fmi pattern n in_range).
Proof.
  intros Hc Hj Hn. rewrite match_range_small by lia.
  replace (Z.to_nat n) with (S j + Z.to_nat (n - 1 - Z.of_nat j))%nat by lia.
  rewrite match_loop_ambiguous by exact Hc. apply guarded_result_empty.
Qed.

Lemma read_at_ambiguous (read : ReadStream) (d : DirType) (t : ReadType)
  (j : index_type) :
  0 <= j < read_length read ->
  0 <= stream read (u32 (first read + j)) ->
  to_uint8 (stream read (u32 (first read + j))) > 3 ->
  exists pos,
    0 <= pos < read_length read
    /\ to_uint8 (read_at (set_flags read d t) pos) > 3.
Proof.
  intros Hj Hnonneg Hc.
  assert (Hraw : stream read (u32 (first read + j)) > 3).
  { destruct (Z_le_gt_dec (stream read (u32 (first read + j))) 3)
      as [Hle | Hgt]; [| exact Hgt].
    rewrite to_uint8_small in Hc by lia. exact Hc. }
  assert (Hview : forall index,
            index = u32 (first read + j) ->
            to_uint8
              (if match t with COMPLEMENT => true | STANDARD => false end
               then (if stream read index <? 4 then 3 - stream read index
                     else stream read index)
               else stream read index) > 3).
  { intros index ->. destruct t; [exact Hc |].
    destruct (stream read (u32 (first read + j)) <? 4) eqn:E; [| exact Hc].
    apply Z.ltb_lt in E. lia. }
  destruct d.
  - exists j. split; [exact Hj |]. unfold read_at.
    cbn [set_flags rev comp first last stream]. apply Hview. reflexivity.
  - exists (read_length read - 1 - j). split; [lia |].
    unfold read_at. cbn [set_flags rev comp first last stream]. apply Hview.
    rewrite <- mirror_index.
    replace (read_length read - 1 - (read_length read - 1 - j)) with j by lia.
    pose proof (u32_bounds (1 + last read - first read)) as Hlen.
    fold (read_length read) in Hlen. rewrite (u32_small j) by lia.
    reflexivity.
Qed.

(** X17: a read of at most [2^31] symbols that holds a symbol whose
    [uint8] value is above 3 gives an empty range in each of its four
    views (forward or reverse, standard or complement), from every
    starting range. *)
Theorem read_with_N_never_matches (read : ReadStream) (d : DirType)
  (t : ReadType) (j : index_type) (in_range : range_type) :
  0 <= j < read_length read -> read_length read <= 2 ^ 31 ->
  0 <= stream read (u32 (first read + j)) ->
  to_uint8 (stream read (u32 (first read + j))) > 3 ->
  is_empty (match_range fmi (read_pattern (set_flags read d t))
              (read_length read) in_range).
Proof.
  intros Hj Hn Hnonneg Hc.
  destruct (read_at_ambiguous read d t j Hj Hnonneg Hc) as [pos [Hpos Hgt]].
  apply (match_range_ambiguous_empty _ _ (Z.to_nat pos)).
  - unfold read_pattern. rewrite Z2Nat.id by lia. exact Hgt.
  - rewrite Z2Nat.id by lia. lia.
  - exact Hn.
Qed.

End ReadSearch.

(** The read A C N T over positions 2..5 of a stream. *)
Lemma match_reverse_view_witness :
  match_ acgt_index
    (read_pattern
       (set_flags (ReadStream_of (fun i => nth (Z.to_nat i) [9; 9; 0; 1; 4; 3] 0)
                     (fun _ => 30) (make_vector 2 6)) REVERSE STANDARD))
    (read_length (ReadStream_of (fun i => nth (Z.to_nat i) [9; 9; 0; 1; 4; 3] 0)
                    (fun _ => 30) (make_vector 2 6)))
  = match_reverse acgt_index
      (read_pattern
         (set_flags (ReadStream_of
                       (fun i => nth (Z.to_nat i) [9; 9; 0; 1; 4; 3] 0)
                       (fun _ => 30) (make_vector 2 6)) FORWARD STANDARD))
      (read_length (ReadStream_of
                      (fun i => nth (Z.to_nat i) [9; 9; 0; 1; 4; 3] 0)
                      (fun _ => 30) (make_vector 2 6))).
Proof. apply (match_reverse_view acgt_index). vm_compute. discriminate. Defined.

Lemma read_with_N_never_matches_witness :
  is_empty
    (match_range acgt_index
       (read_pattern
          (set_flags (ReadStream_of
                        (fun i => nth (Z.to_nat i) [9; 9; 0; 1; 4; 3] 0)
                        (fun _ => 30) (make_vector 2 6)) REVERSE COMPLEMENT))
       (read_length (ReadStream_of
                       (fun i => nth (Z.to_nat i) [9; 9; 0; 1; 4; 3] 0)
                       (fun _ => 30) (make_vector 2 6)))
       (make_vector 0 8)).
Proof.
  apply (read_with_N_never_matches acgt_index _ REVERSE COMPLEMENT 2).
  - vm_compute. split; [discriminate | reflexivity].
  - vm_compute. discriminate.
  - vm_compute. discriminate.
  - reflexivity.
Defined.

(** ** The protein alphabet *)

Lemma protein_to_char_outside (c : uint8) :
  ~ 0 <= c <= 23 -> protein_to_char c = "N"%char.
Proof.
  intros Hc. unfold protein_to_char.
  repeat match goal with
         | |- context [c =? ?k] => destruct (Z.eqb_spec c k); [lia |]
         end.
  reflexivity.
Qed.

Lemma protein_to_char_not_zero (c : uint8) :
  Ascii.eqb (protein_to_char c) zero = false.
Proof.
  unfold protein_to_char.
  repeat match goal with
         | |- context [c =? ?k] => destruct (c =? k); [reflexivity |]
         end.
  reflexivity.
Qed.

Lemma protein_code_normalised (c : uint8) :
  char_to_protein (protein_to_char c)
  = if (0 <=? c) && (c <=? 23) then c else 11.
Proof.
  destruct ((0 <=? c) && (c <=? 23)) eqn:Ein.
  - apply andb_true_iff in Ein. destruct Ein as [Hlo Hhi].
    apply Z.leb_le in Hlo, Hhi.
    assert (Hcases : c = 0 \/ c = 1 \/ c = 2 \/ c = 3 \/ c = 4 \/ c = 5
                     \/ c = 6 \/ c = 7 \/ c = 8 \/ c = 9 \/ c = 10 \/ c = 11
                     \/ c = 12 \/ c = 13 \/ c = 14 \/ c = 15 \/ c = 16
                     \/ c = 17 \/ c = 18 \/ c = 19 \/ c = 20 \/ c = 21
                     \/ c = 22 \/ c = 23) by lia.
    repeat (destruct Hcases as [-> | Hcases]; [reflexivity |]).
    subst c. reflexivity.
  - rewrite protein_to_char_outside; [reflexivity |].
    apply andb_false_iff in Ein. destruct Ein as [E | E];
      apply Z.leb_gt in E; lia.
Qed.

(** X18: decoding the character of a protein code gives the code back for
    the codes 0 to 23 and 11, the code of N, for every other value; and
    the character is never the string terminator. *)
Theorem protein_code_round_trip (c : uint8) :
  char_to_protein (protein_to_char c)
  = (if (0 <=? c) && (c <=? 23) then c else 11)
  /\ protein_to_char c <> zero.
Proof.
  split; [apply protein_code_normalised |].
  intros Hzero. pose proof (protein_to_char_not_zero c) as Hne.
  rewrite Hzero in Hne. discriminate.
Qed.

(** X19: encoding the code of a character gives the character back for
    the 24 letters of the alphabet, and N for every other character; the
    code is always one of 0 to 23. *)
Theorem protein_char_round_trip (ch : ascii) :
  protein_to_char (char_to_protein ch)
  = (if existsb (Ascii.eqb ch) protein_letters then ch else "N"%char)
  /\ 0 <= char_to_protein ch <= 23.
Proof.
  destruct ch as [[] [] [] [] [] [] [] []];
    (split; [reflexivity | vm_compute; split; discriminate]).
Qed.

Lemma from_string_protein_chars (begin : Iterator) (n : nat) : forall i,
  from_string_protein (protein_chars begin i n ++ [zero])
  = Some (map (fun k => char_to_protein (protein_to_char (to_uint8 (begin k))))
            (seq i n)).
Proof.
  induction n as [| n IH]; intros i; simpl.
  - reflexivity.
  - rewrite protein_to_char_not_zero, IH. reflexivity.
Qed.

(** X20: the string [to_string] writes for [n] protein symbols is read
    back by [from_string] up to its terminator, as [n] symbols: each
    symbol whose [uint8] value is a code from 0 to 23 as that code, and
    every other one as 11. *)
Theorem protein_string_round_trip (begin : Iterator) (n : nat) :
  from_string_protein (to_string_protein begin n)
  = Some (map (fun k => if to_uint8 (begin k) <=? 23
                        then to_uint8 (begin k) else 11)
            (seq 0 n)).
Proof.
  unfold to_string_protein. rewrite from_string_protein_chars.
  f_equal. apply map_ext. intros k. rewrite protein_code_normalised.
  pose proof (to_uint8_bounds (begin k)) as Hc.
  assert (Hlo : (0 <=? to_uint8 (begin k)) = true) by (apply Z.leb_le; lia).
  rewrite Hlo. reflexivity.
Qed.

(** ** Q-grams *)

Section QGramProperties.

Variable f : string_qgram_functor.

Hypothesis mask_ones : symbol_mask f = Z.ones (symbol_size f).
Hypothesis symbol_size_nonneg : 0 <= symbol_size f.

Lemma qgram_symbol_bounds i j : 0 <= qgram_symbol f i j < 2 ^ symbol_size f.
Proof.
  assert (Hpow : 0 < 2 ^ symbol_size f) by (apply Z.pow_pos_nonneg; lia).
  unfold qgram_symbol. destruct (u32 (i + j) <? string_len f).
  - apply Z.mod_pos_bound, Hpow.
  - lia.
Qed.

Lemma qgram_symbol_high_bits i j b :
  symbol_size f <= b -> Z.testbit (qgram_symbol f i j) b = false.
Proof.
  intros Hb. pose proof (qgram_symbol_bounds i j) as Hv.
  destruct (Z.eq_dec (qgram_symbol f i j) 0) as [-> | Hne].
  - apply Z.testbit_0_l.
  - apply Z.bits_above_log2; [lia |].
    apply Z.lt_le_trans with (symbol_size f); [| lia].
    apply Z.log2_lt_pow2; lia.
Qed.

Lemma qgram_loop_step i n j qgram :
  qgram_loop f i (S n) j qgram
  = qgram_loop f i n (j + 1)
      (Z.lor qgram
         (u64 (Z.shiftl (qgram_symbol f i j) (u32 (j * symbol_size f))))).
Proof.
  cbn [qgram_loop]. unfold qgram_symbol. rewrite mask_ones.
  destruct (u32 (i + j) <? string_len f); [| reflexivity].
  rewrite Z.land_ones by exact symbol_size_nonneg. reflexivity.
Qed.

Lemma shifted_symbol_bit i j b :
  0 <= j -> (j + 1) * symbol_size f <= 64 -> 0 <= b ->
  Z.testbit (u64 (Z.shiftl (qgram_symbol f i j) (u32 (j * symbol_size f)))) b
  = (j * symbol_size f <=? b) && (b <? (j + 1) * symbol_size f)
    && Z.testbit (qgram_symbol f i j) (b - j * symbol_size f).
Proof.
  intros Hj Hfit Hb. pose proof (qgram_symbol_bounds i j) as Hv.
  assert (Hshift : 0 <= j * symbol_size f <= 64) by nia.
  rewrite (u32_small (j * symbol_size f)) by lia.
  assert (Hsmall : 0 <= Z.shiftl (qgram_symbol f i j) (j * symbol_size f)
                   < 2 ^ 64).
  { rewrite Z.shiftl_mul_pow2 by lia.
    assert (Hpow : 0 < 2 ^ (j * symbol_size f))
      by (apply Z.pow_pos_nonneg; lia).
    split; [nia |].
    apply Z.lt_le_trans with (2 ^ symbol_size f * 2 ^ (j * symbol_size f));
      [nia |].
    rewrite <- Z.pow_add_r by lia. apply Z.pow_le_mono_r; lia. }
  unfold u64. rewrite Z.mod_small by exact Hsmall.
  rewrite Z.shiftl_spec by exact Hb.
  destruct (j * symbol_size f <=? b) eqn:Elow; simpl.
  - apply Z.leb_le in Elow.
    destruct (b <? (j + 1) * symbol_size f) eqn:Ehigh; [reflexivity |].
    apply Z.ltb_ge in Ehigh. simpl. apply qgram_symbol_high_bits. lia.
  - apply Z.leb_gt in Elow. apply Z.testbit_neg_r. lia.
Qed.

Lemma qgram_loop_bits i n : forall j0 qgram b,
  0 <= j0 -> (j0 + Z.of_nat n) * symbol_size f <= 64 -> 0 <= b ->
  Z.testbit (qgram_loop f i n j0 qgram) b
  = Z.testbit qgram b || fields_bit f i n j0 b.
Proof.
  induction n as [| n IH]; intros j0 qgram b Hj0 Hfit Hb.
  - simpl. rewrite orb_false_r. reflexivity.
  - rewrite qgram_loop_step, IH by nia.
    rewrite Z.lor_spec, shifted_symbol_bit by nia.
    cbn [fields_bit]. rewrite orb_assoc. reflexivity.
Qed.

Lemma fields_bit_at i n : forall j0 j b,
  0 <= b < symbol_size f ->
  fields_bit f i n j0 (b + j * symbol_size f)
  = (j0 <=? j) && (j <? j0 + Z.of_nat n) && Z.testbit (qgram_symbol f i j) b.
Proof.
  induction n as [| n IH]; intros j0 j b Hb.
  - simpl. destruct (j0 <=? j) eqn:E1; [| reflexivity].
    apply Z.leb_le in E1.
    assert (E2 : (j <? j0 + 0) = false) by (apply Z.ltb_ge; lia).
    rewrite E2. reflexivity.
  - cbn [fields_bit]. rewrite IH by exact Hb.
    destruct (Z.eq_dec j0 j) as [-> | Hne].
    + assert (E1 : (j * symbol_size f <=? b + j * symbol_size f) = true)
        by (apply Z.leb_le; lia).
      assert (E2 : (b + j * symbol_size f <? (j + 1) * symbol_size f) = true)
        by (apply Z.ltb_lt; lia).
      assert (E3 : (j + 1 <=? j) = false) by (apply Z.leb_gt; lia).
      assert (E4 : (j <=? j) = true) by (apply Z.leb_le; lia).
      assert (E5 : (j <? j + Z.of_nat (S n)) = true) by (apply Z.ltb_lt; lia).
      rewrite E1, E2, E3, E4, E5. simpl. rewrite orb_false_r.
      f_equal. lia.
    + assert (Eout : (j0 * symbol_size f <=? b + j * symbol_size f)
                     && (b + j * symbol_size f <? (j0 + 1) * symbol_size f)
                     = false).
      { apply andb_false_iff.
        destruct (Z_lt_ge_dec j j0) as [Hlt | Hge].
        - left. apply Z.leb_gt. nia.
        - right. apply Z.ltb_ge. nia. }
      rewrite Eout. simpl.
      destruct (Z_lt_ge_dec j j0) as [Hlt | Hge].
      * assert (E1 : (j0 <=? j) = false) by (apply Z.leb_gt; lia).
        assert (E2 : (j0 + 1 <=? j) = false) by (apply Z.leb_gt; lia).
        rewrite E1, E2. reflexivity.
      * assert (E1 : (j0 <=? j) = true) by (apply Z.leb_le; lia).
        assert (E2 : (j0 + 1 <=? j) = true) by (apply Z.leb_le; lia).
        rewrite E1, E2. simpl. f_equal.
        destruct (j <? j0 + 1 + Z.of_nat n) eqn:E3;
          [apply Z.ltb_lt in E3; symmetry; apply Z.ltb_lt; lia
          | apply Z.ltb_ge in E3; symmetry; apply Z.ltb_ge; lia].
Qed.

Lemma qgram_at_decoded (i j : index_type) :
  0 <= j < Q f -> Q f * symbol_size f <= 64 ->
  Z.land (Z.shiftr (qgram_at f i) (j * symbol_size f))
    (Z.ones (symbol_size f))
  = qgram_symbol f i j.
Proof.
  intros Hj Hfit. apply Z.bits_inj'. intros b Hb.
  rewrite Z.land_spec, Z.shiftr_spec by exact Hb.
  destruct (Z_lt_ge_dec b (symbol_size f)) as [Hlow | Hhigh].
  - rewrite Z.ones_spec_low, andb_true_r by lia.
    unfold qgram_at. rewrite qgram_loop_bits.
    + rewrite Z.testbit_0_l. simpl. rewrite fields_bit_at by lia.
      assert (E1 : (0 <=? j) = true) by (apply Z.leb_le; lia).
      assert (E2 : (j <? 0 + Z.of_nat (Z.to_nat (Q f))) = true)
        by (apply Z.ltb_lt; lia).
      rewrite E1, E2. reflexivity.
    + lia.
    + rewrite Z2Nat.id by lia. lia.
    + nia.
  - rewrite Z.ones_spec_high, andb_false_r by lia. symmetry.
    apply qgram_symbol_high_bits. lia.
Qed.

End QGramProperties.

Lemma symbol_mask_ones (q_len sym_bits str_len : Z)
  (str : index_type -> uint8) :
  0 <= sym_bits <= 31 ->
  symbol_mask (string_qgram_functor_of q_len sym_bits str_len str)
  = Z.ones sym_bits.
Proof.
  intros Hbits. unfold string_qgram_functor_of. cbn [symbol_mask].
  rewrite Z.shiftl_1_l.
  assert (Hpow : 0 < 2 ^ sym_bits <= 2 ^ 31).
  { split; [apply Z.pow_pos_nonneg; lia |].
    apply Z.pow_le_mono_r; lia. }
  rewrite (u32_small (2 ^ sym_bits)) by lia.
  rewrite u32_small by lia. rewrite Z.ones_equiv. lia.
Qed.

(** X22: a q-gram of [Q] symbols of [symbol_size <= 31] bits each, with
    [Q * symbol_size <= 64], holds symbol [j] of the window at bits
    [j*symbol_size ..]: shifting it right by [j*symbol_size] and masking
    gives the string's symbol at [i + j] cut to [symbol_size] bits, and 0
    when [i + j] is not below [string_len]. *)
Theorem qgram_symbol_decoded (q_len sym_bits str_len : Z)
  (str : index_type -> uint8) (i j : index_type) :
  0 <= sym_bits <= 31 -> q_len * sym_bits <= 64 -> 0 <= j < q_len ->
  Z.land
    (Z.shiftr (qgram_at (string_qgram_functor_of q_len sym_bits str_len str) i)
       (j * sym_bits))
    (symbol_mask (string_qgram_functor_of q_len sym_bits str_len str))
  = if u32 (i + j) <? str_len then str (u32 (i + j)) mod 2 ^ sym_bits else 0.
Proof.
  intros Hbits Hfit Hj. rewrite symbol_mask_ones by exact Hbits.
  apply (qgram_at_decoded (string_qgram_functor_of q_len sym_bits str_len str)).
  - apply symbol_mask_ones, Hbits.
  - simpl. lia.
  - simpl. exact Hj.
  - simpl. exact Hfit.
Qed.

(** The 2-bit string A C G T A C G T and its 3-grams. *)
Lemma qgram_symbol_decoded_witness :
  Z.land
    (Z.shiftr
       (qgram_at (string_qgram_functor_of 3 2 8
                    (fun k => nth (Z.to_nat k) [0; 1; 2; 3; 0; 1; 2; 3] 0)) 6)
       (2 * 2))
    (symbol_mask (string_qgram_functor_of 3 2 8
                    (fun k => nth (Z.to_nat k) [0; 1; 2; 3; 0; 1; 2; 3] 0)))
  = if u32 (6 + 2) <? 8
    then (fun k => nth (Z.to_nat k) [0; 1; 2; 3; 0; 1; 2; 3] 0) (u32 (6 + 2))
         mod 2 ^ 2
    else 0.
Proof. apply (qgram_symbol_decoded 3 2 8); lia. Defined.

End nvbio.
